(** * ItMajor3: a CRUD service over four SQLite tables

    Shallow embedding of [src/main.py].  The program is a FastAPI application
    with twenty routes (five per resource: polls, comments, teams, players);
    every route opens a connection, runs one or two parameterised SQL
    statements and returns.

    Layers of the model, bottom up:
    - Python/SQLite values and row tuples;
    - the store: four tables with AUTOINCREMENT primary keys, and the five
      statement shapes the program executes;
    - a state-and-exception monad for the body of a handler (the connection,
      [cursor.execute], [raise HTTPException]);
    - the pydantic models and the handlers, one definition per Python function;
    - the routes: a handler together with the [response_model] of its
      decorator, producing the HTTP response.

    Integers are unbounded (Python [int]) until they are bound to a
    statement: [sqlite3] raises [OverflowError] on a parameter outside the
    signed 64-bit range, and SQLite refuses an INSERT when the AUTOINCREMENT
    counter is exhausted.  No handler catches either, so the route answers
    500 and nothing is written.  Strings are well-formed Unicode, which
    [sqlite3] always binds.  I/O faults of the store are outside the
    model.  NOT NULL is not modelled: on a store the service built, every
    value a handler binds to such a column is a string or an integer that a
    request supplied. *)

From Stdlib Require Import ZArith String List Bool Lia.
Import ListNotations.

Open Scope string_scope.
Open Scope list_scope.
Open Scope Z_scope.

(** * The program *)

(** ** Values and rows *)

(** What a column of a fetched row or a JSON field can hold here:
    [None]/NULL, an integer, a string. *)
Inductive value : Type :=
| VNone
| VInt (n : Z)
| VStr (s : string).

(** A row as [sqlite3] returns it: a tuple of values in column order. *)
Definition row : Type := list value.

(** A Python [dict] with string keys, in insertion order. *)
Definition dict : Type := list (string * value).

(** [row[i]] on a fetched tuple.  Rows of a table have the arity of its
    schema ([wf_db] below), so the default is never reached on them. *)
Definition item (r : row) (i : nat) : value := nth i r VNone.

Notation "r @ i" := (item r i) (at level 9, i at level 9, format "r @ i").

Fixpoint assoc {A : Type} (k : string) (l : list (string * A)) : option A :=
  match l with
  | [] => None
  | (k', v) :: l' => if String.eqb k' k then Some v else assoc k l'
  end.

Definition keys {A : Type} (l : list (string * A)) : list string := map fst l.

(** ** The store *)

Inductive tname : Type := polls | comments | teams | players.

(** Columns in declaration order with their DEFAULT (NULL when none is
    declared), as in the CREATE TABLE statements of [init_db].  The first
    column of every table is [id INTEGER PRIMARY KEY AUTOINCREMENT]. *)
Definition schema (t : tname) : list (string * value) :=
  match t with
  | polls => [("id", VNone); ("question", VNone); ("likes", VInt 0)]
  | comments => [("id", VNone); ("poll_id", VNone); ("content", VNone)]
  | teams => [("id", VNone); ("team_name", VNone); ("city", VNone);
              ("championships", VInt 0)]
  | players => [("id", VNone); ("name", VNone); ("jersey_number", VNone);
                ("position", VNone); ("team_id", VNone)]
  end.

(** The declared type of each column, in the same order (INTEGER or
    TEXT). *)
Inductive ctype : Type := INTEGER | TEXT.

Definition column_types (t : tname) : list ctype :=
  match t with
  | polls => [INTEGER; TEXT; INTEGER]
  | comments => [INTEGER; INTEGER; TEXT]
  | teams => [INTEGER; TEXT; TEXT; INTEGER]
  | players => [INTEGER; TEXT; INTEGER; TEXT; INTEGER]
  end.

(** A table: its rows in rowid order and the [sqlite_sequence] counter that
    AUTOINCREMENT keeps (the largest rowid ever handed out). *)
Record table : Type := mkTable { rows : list row; seq : Z }.

Record DB : Type := mkDB {
  polls_tbl : table;
  comments_tbl : table;
  teams_tbl : table;
  players_tbl : table
}.

Definition table_of (t : tname) (d : DB) : table :=
  match t with
  | polls => polls_tbl d
  | comments => comments_tbl d
  | teams => teams_tbl d
  | players => players_tbl d
  end.

Definition set_table (t : tname) (tb : table) (d : DB) : DB :=
  match t with
  | polls => mkDB tb (comments_tbl d) (teams_tbl d) (players_tbl d)
  | comments => mkDB (polls_tbl d) tb (teams_tbl d) (players_tbl d)
  | teams => mkDB (polls_tbl d) (comments_tbl d) tb (players_tbl d)
  | players => mkDB (polls_tbl d) (comments_tbl d) (teams_tbl d) tb
  end.

(** [init_db] on a fresh database file: four empty tables. *)
Definition init_db : DB :=
  let empty := mkTable [] 0 in mkDB empty empty empty empty.

(** SQLite's INTEGER, and what [sqlite3] accepts as an integer parameter:
    the signed 64-bit range. *)
Definition int64_min : Z := -9223372036854775808.
Definition int64_max : Z := 9223372036854775807.

Definition in_range (n : Z) : bool := (int64_min <=? n) && (n <=? int64_max).

(** The integer in the id column of a row ([INTEGER PRIMARY KEY]: a 64-bit
    rowid). *)
Definition row_id (r : row) : option Z :=
  match r with
  | VInt i :: _ => if in_range i then Some i else None
  | _ => None
  end.

(** The test [id = ?] of a WHERE clause, with an integer parameter. *)
Definition has_id (i : Z) (r : row) : bool :=
  match row_id r with
  | Some j => j =? i
  | None => false
  end.

Definition max_rowid (rs : list row) : Z :=
  fold_right (fun r m => match row_id r with
                         | Some i => Z.max i m
                         | None => m
                         end) 0 rs.

(** AUTOINCREMENT: one more than the largest rowid that ever existed. *)
Definition next_rowid (tb : table) : Z :=
  Z.max (seq tb) (max_rowid (rows tb)) + 1.

(** The row INSERT builds: the fresh rowid in [id], the bound parameter in
    each named column, the DEFAULT in every other one. *)
Definition new_row (t : tname) (i : Z) (cols : list string)
    (vals : list value) : row :=
  map (fun cd : string * value =>
         if String.eqb (fst cd) "id" then VInt i
         else match assoc (fst cd) (combine cols vals) with
              | Some v => v
              | None => snd cd
              end)
      (schema t).

(** The row UPDATE ... SET leaves: assigned columns take the new value, the
    others keep theirs. *)
Fixpoint set_columns (cols : list string) (sets : list (string * value))
    (r : row) : row :=
  match cols, r with
  | c :: cols', v :: r' =>
      match assoc c sets with
      | Some v' => v'
      | None => v
      end :: set_columns cols' sets r'
  | _, _ => r
  end.

Definition update_row (t : tname) (sets : list (string * value))
    (r : row) : row :=
  set_columns (keys (schema t)) sets r.

(** The five statement shapes of [src/main.py]; [?] parameters are the
    arguments. *)
Inductive stmt : Type :=
| INSERT (t : tname) (cols : list string) (vals : list value)
    (* INSERT INTO t (cols) VALUES (?, ...) *)
| SELECT_ALL (t : tname)
    (* SELECT * FROM t *)
| SELECT_WHERE_ID (t : tname) (i : Z)
    (* SELECT * FROM t WHERE id = ? *)
| UPDATE (t : tname) (sets : list (string * value)) (i : Z)
    (* UPDATE t SET c = ?, ... WHERE id = ? *)
| DELETE (t : tname) (i : Z).
    (* DELETE FROM t WHERE id = ? *)

(** What the cursor holds after [execute]: the result rows and [rowcount]
    (-1 after a SELECT, the number of rows changed otherwise). *)
Record cursor : Type := mkCursor { fetched : list row; rowcount : Z }.

Definition fetchall (c : cursor) : list row := fetched c.
Definition fetchone (c : cursor) : option row := hd_error (fetched c).

Definition matching (t : tname) (i : Z) (d : DB) : list row :=
  filter (has_id i) (rows (table_of t d)).

(** The exceptions [cursor.execute] raises here: [OverflowError] when
    binding an integer outside the 64-bit range, [sqlite3.OperationalError]
    (SQLITE_FULL) when AUTOINCREMENT has no id left. *)
Inductive exn : Type := OverflowError | OperationalError.

(** The [?] parameters of a statement, in binding order. *)
Definition params (s : stmt) : list value :=
  match s with
  | INSERT _ _ vals => vals
  | SELECT_ALL _ => []
  | SELECT_WHERE_ID _ i => [VInt i]
  | UPDATE _ sets i => map snd sets ++ [VInt i]
  | DELETE _ i => [VInt i]
  end.

(** A value [sqlite3] can bind. *)
Definition bindable (v : value) : bool :=
  match v with
  | VInt n => in_range n
  | _ => true
  end.

(** One statement on the store: the exception it raises, or the store it
    leaves and the cursor.  Parameters are bound before the statement runs,
    so a statement that raises changes nothing.  The FOREIGN KEY clauses of
    [comments] and [players] have no effect: SQLite enforces them only under
    [PRAGMA foreign_keys = ON], which the program never issues, so an INSERT
    looks at no other table. *)
Definition sql (s : stmt) (d : DB) : exn + DB * cursor :=
  if forallb bindable (params s) then
    match s with
    | INSERT t cols vals =>
        let tb := table_of t d in
        let i := next_rowid tb in
        if i <=? int64_max then
          inr (set_table t (mkTable (rows tb ++ [new_row t i cols vals]) i) d,
               mkCursor [] 1)
        else inl OperationalError
    | SELECT_ALL t => inr (d, mkCursor (rows (table_of t d)) (-1))
    | SELECT_WHERE_ID t i => inr (d, mkCursor (matching t i d) (-1))
    | UPDATE t sets i =>
        let tb := table_of t d in
        inr (set_table t
               (mkTable (map (fun r => if has_id i r then update_row t sets r
                                       else r)
                             (rows tb))
                        (seq tb)) d,
             mkCursor [] (Z.of_nat (length (matching t i d))))
    | DELETE t i =>
        let tb := table_of t d in
        inr (set_table t
               (mkTable (filter (fun r => negb (has_id i r)) (rows tb))
                        (seq tb)) d,
             mkCursor [] (Z.of_nat (length (matching t i d))))
    end
  else inl OverflowError.

(** ** Handler bodies: connection state and exceptions *)

(** The connection a handler opens: the store, and the statements passed to
    [cursor.execute] on it so far (most recent last), whether they ran or
    raised. *)
Record conn : Type := mkConn { store : DB; executed : list stmt }.

(** How a handler ends: it returns, it raises [HTTPException], or an
    exception of [cursor.execute] escapes it (no handler has a [try]). *)
Inductive result (A : Type) : Type :=
| Return (a : A)
| HTTPException (status_code : Z) (detail : string)
| Uncaught (e : exn).

Arguments Return {A} a.
Arguments HTTPException {A} status_code detail.
Arguments Uncaught {A} e.

Definition M (A : Type) : Type := conn -> result A * conn.

Definition ret {A : Type} (a : A) : M A := fun c => (Return a, c).

Definition bind {A B : Type} (m : M A) (k : A -> M B) : M B :=
  fun c =>
    match m c with
    | (Return a, c') => k a c'
    | (HTTPException s msg, c') => (HTTPException s msg, c')
    | (Uncaught e, c') => (Uncaught e, c')
    end.

Definition raise {A : Type} (status_code : Z) (detail : string) : M A :=
  fun c => (HTTPException status_code detail, c).

(** [cursor.execute(...)].  Every statement that runs is committed before
    the handler returns or raises, so it takes effect as it runs; one that
    raises leaves the store as it was and ends the handler. *)
Definition execute (s : stmt) : M cursor :=
  fun c =>
    match sql s (store c) with
    | inr (d', cur) => (Return cur, mkConn d' (executed c ++ [s]))
    | inl e => (Uncaught e, mkConn (store c) (executed c ++ [s]))
    end.

Notation "x <- m ;; k" := (bind m (fun x => k))
  (at level 61, m at next level, right associativity).

(** [with sqlite3.connect(DATABASE_URL) as conn: ...] *)
Definition run {A : Type} (m : M A) (d : DB) : result A * conn :=
  m (mkConn d []).

Definition outcome {A : Type} (m : M A) (d : DB) : result A := fst (run m d).
Definition after {A : Type} (m : M A) (d : DB) : DB := store (snd (run m d)).
Definition statements {A : Type} (m : M A) (d : DB) : list stmt :=
  executed (snd (run m d)).

(** ** Pydantic models *)

(** A field declared [x: T = None] is an [option]; [to_dict] is the model's
    dump, field by field in declaration order; [declared] gives each field
    its annotation. *)

Inductive ftype : Type := TStr | TInt.

Definition opt_str (o : option string) : value :=
  match o with Some s => VStr s | None => VNone end.

Definition opt_int (o : option Z) : value :=
  match o with Some n => VInt n | None => VNone end.

Module PollCreate.
Record t : Type := mk { question : string }.
Definition fields : list string := ["question"].
Definition to_dict (m : t) : dict := [("question", VStr (question m))].
Definition declared : list (string * ftype) :=
  [("question", TStr)].
End PollCreate.

Module PollUpdate.
Record t : Type := mk { question : option string }.
Definition fields : list string := ["question"].
Definition to_dict (m : t) : dict := [("question", opt_str (question m))].
Definition declared : list (string * ftype) :=
  [("question", TStr)].
End PollUpdate.

Module CommentCreate.
Record t : Type := mk { poll_id : Z; content : string }.
Definition fields : list string := ["poll_id"; "content"].
Definition to_dict (m : t) : dict :=
  [("poll_id", VInt (poll_id m)); ("content", VStr (content m))].
Definition declared : list (string * ftype) :=
  [("poll_id", TInt); ("content", TStr)].
End CommentCreate.

Module CommentUpdate.
Record t : Type := mk { content : option string }.
Definition fields : list string := ["content"].
Definition to_dict (m : t) : dict := [("content", opt_str (content m))].
Definition declared : list (string * ftype) :=
  [("content", TStr)].
End CommentUpdate.

Module TeamCreate.
Record t : Type := mk { team_name : string; city : string; championships : Z }.
Definition fields : list string := ["team_name"; "city"; "championships"].
Definition to_dict (m : t) : dict :=
  [("team_name", VStr (team_name m)); ("city", VStr (city m));
   ("championships", VInt (championships m))].
Definition declared : list (string * ftype) :=
  [("team_name", TStr); ("city", TStr); ("championships", TInt)].
End TeamCreate.

Module TeamUpdate.
Record t : Type := mk {
  team_name : option string;
  city : option string;
  championships : option Z
}.
Definition fields : list string := ["team_name"; "city"; "championships"].
Definition to_dict (m : t) : dict :=
  [("team_name", opt_str (team_name m)); ("city", opt_str (city m));
   ("championships", opt_int (championships m))].
Definition declared : list (string * ftype) :=
  [("team_name", TStr); ("city", TStr); ("championships", TInt)].
End TeamUpdate.

Module PlayerCreate.
Record t : Type := mk {
  name : string;
  jersey_number : Z;
  position : string;
  team_id : Z
}.
Definition fields : list string :=
  ["name"; "jersey_number"; "position"; "team_id"].
Definition to_dict (m : t) : dict :=
  [("name", VStr (name m)); ("jersey_number", VInt (jersey_number m));
   ("position", VStr (position m)); ("team_id", VInt (team_id m))].
Definition declared : list (string * ftype) :=
  [("name", TStr); ("jersey_number", TInt); ("position", TStr);
   ("team_id", TInt)].
End PlayerCreate.

Module PlayerUpdate.
Record t : Type := mk {
  name : option string;
  jersey_number : option Z;
  position : option string;
  team_id : option Z
}.
Definition fields : list string :=
  ["name"; "jersey_number"; "position"; "team_id"].
Definition to_dict (m : t) : dict :=
  [("name", opt_str (name m)); ("jersey_number", opt_int (jersey_number m));
   ("position", opt_str (position m)); ("team_id", opt_int (team_id m))].
Definition declared : list (string * ftype) :=
  [("name", TStr); ("jersey_number", TInt); ("position", TStr);
   ("team_id", TInt)].
End PlayerUpdate.

(** ** Handlers

    One definition per Python function, statement by statement.
    [x if x is not None else y] is the [match] on the optional field. *)

(** *** Poll routes *)

Definition create_poll (poll : PollCreate.t) : M PollCreate.t :=
  _ <- execute (INSERT polls ["question"] [VStr (PollCreate.question poll)]) ;;
  ret poll.

Definition get_polls : M (list dict) :=
  cur <- execute (SELECT_ALL polls) ;;
  ret (map (fun row => [("id", row@0); ("question", row@1); ("likes", row@2)])
           (fetchall cur)).

Definition get_poll (poll_id : Z) : M dict :=
  cur <- execute (SELECT_WHERE_ID polls poll_id) ;;
  match fetchone cur with
  | None => raise 404 "Poll not found"
  | Some poll =>
      ret [("id", poll@0); ("question", poll@1); ("likes", poll@2)]
  end.

Definition update_poll (poll_id : Z) (poll_update : PollUpdate.t) : M dict :=
  cur <- execute (SELECT_WHERE_ID polls poll_id) ;;
  match fetchone cur with
  | None => raise 404 "Poll not found"
  | Some existing_poll =>
      let updated_question :=
        match PollUpdate.question poll_update with
        | Some q => VStr q
        | None => existing_poll@1
        end in
      _ <- execute (UPDATE polls [("question", updated_question)] poll_id) ;;
      ret [("id", VInt poll_id); ("question", updated_question);
           ("likes", existing_poll@2)]
  end.

Definition delete_poll (poll_id : Z) : M dict :=
  cur <- execute (DELETE polls poll_id) ;;
  if rowcount cur =? 0 then raise 404 "Poll not found"
  else ret [("detail", VStr "Poll deleted successfully")].

(** *** Comment routes *)

Definition create_comment (comment : CommentCreate.t) : M CommentCreate.t :=
  _ <- execute (INSERT comments ["poll_id"; "content"]
                  [VInt (CommentCreate.poll_id comment);
                   VStr (CommentCreate.content comment)]) ;;
  ret comment.

Definition get_comments : M (list dict) :=
  cur <- execute (SELECT_ALL comments) ;;
  ret (map (fun row => [("id", row@0); ("poll_id", row@1); ("content", row@2)])
           (fetchall cur)).

Definition get_comment (comment_id : Z) : M dict :=
  cur <- execute (SELECT_WHERE_ID comments comment_id) ;;
  match fetchone cur with
  | None => raise 404 "Comment not found"
  | Some comment =>
      ret [("id", comment@0); ("poll_id", comment@1); ("content", comment@2)]
  end.

Definition update_comment (comment_id : Z) (comment_update : CommentUpdate.t)
    : M dict :=
  cur <- execute (SELECT_WHERE_ID comments comment_id) ;;
  match fetchone cur with
  | None => raise 404 "Comment not found"
  | Some existing_comment =>
      let updated_content :=
        match CommentUpdate.content comment_update with
        | Some c => VStr c
        | None => existing_comment@2
        end in
      _ <- execute (UPDATE comments [("content", updated_content)] comment_id) ;;
      ret [("id", VInt comment_id); ("poll_id", existing_comment@1);
           ("content", updated_content)]
  end.

Definition delete_comment (comment_id : Z) : M dict :=
  cur <- execute (DELETE comments comment_id) ;;
  if rowcount cur =? 0 then raise 404 "Comment not found"
  else ret [("detail", VStr "Comment deleted successfully")].

(** *** Team routes *)

Definition create_team (team : TeamCreate.t) : M TeamCreate.t :=
  _ <- execute (INSERT teams ["team_name"; "city"; "championships"]
                  [VStr (TeamCreate.team_name team);
                   VStr (TeamCreate.city team);
                   VInt (TeamCreate.championships team)]) ;;
  ret team.

Definition get_teams : M (list dict) :=
  cur <- execute (SELECT_ALL teams) ;;
  ret (map (fun row => [("id", row@0); ("team_name", row@1); ("city", row@2);
                        ("championships", row@3)])
           (fetchall cur)).

Definition get_team (team_id : Z) : M dict :=
  cur <- execute (SELECT_WHERE_ID teams team_id) ;;
  match fetchone cur with
  | None => raise 404 "Team not found"
  | Some team =>
      ret [("id", team@0); ("team_name", team@1); ("city", team@2);
           ("championships", team@3)]
  end.

Definition update_team (team_id : Z) (team_update : TeamUpdate.t) : M dict :=
  cur <- execute (SELECT_WHERE_ID teams team_id) ;;
  match fetchone cur with
  | None => raise 404 "Team not found"
  | Some existing_team =>
      let updated_team_name :=
        match TeamUpdate.team_name team_update with
        | Some s => VStr s
        | None => existing_team@1
        end in
      let updated_city :=
        match TeamUpdate.city team_update with
        | Some s => VStr s
        | None => existing_team@2
        end in
      let updated_championships :=
        match TeamUpdate.championships team_update with
        | Some n => VInt n
        | None => existing_team@3
        end in
      _ <- execute (UPDATE teams [("team_name", updated_team_name);
                                  ("city", updated_city);
                                  ("championships", updated_championships)]
                      team_id) ;;
      ret [("id", VInt team_id); ("team_name", updated_team_name);
           ("city", updated_city); ("championships", updated_championships)]
  end.

Definition delete_team (team_id : Z) : M dict :=
  cur <- execute (DELETE teams team_id) ;;
  if rowcount cur =? 0 then raise 404 "Team not found"
  else ret [("detail", VStr "Team deleted successfully")].

(** *** Player routes *)

Definition create_player (player : PlayerCreate.t) : M PlayerCreate.t :=
  _ <- execute (INSERT players ["name"; "jersey_number"; "position"; "team_id"]
                  [VStr (PlayerCreate.name player);
                   VInt (PlayerCreate.jersey_number player);
                   VStr (PlayerCreate.position player);
                   VInt (PlayerCreate.team_id player)]) ;;
  ret player.

Definition get_players : M (list dict) :=
  cur <- execute (SELECT_ALL players) ;;
  ret (map (fun row => [("id", row@0); ("name", row@1);
                        ("jersey_number", row@2); ("position", row@3);
                        ("team_id", row@4)])
           (fetchall cur)).

Definition get_player (player_id : Z) : M dict :=
  cur <- execute (SELECT_WHERE_ID players player_id) ;;
  match fetchone cur with
  | None => raise 404 "Player not found"
  | Some player =>
      ret [("id", player@0); ("name", player@1); ("jersey_number", player@2);
           ("position", player@3); ("team_id", player@4)]
  end.

Definition update_player (player_id : Z) (player_update : PlayerUpdate.t)
    : M dict :=
  cur <- execute (SELECT_WHERE_ID players player_id) ;;
  match fetchone cur with
  | None => raise 404 "Player not found"
  | Some existing_player =>
      let updated_name :=
        match PlayerUpdate.name player_update with
        | Some s => VStr s
        | None => existing_player@1
        end in
      let updated_jersey_number :=
        match PlayerUpdate.jersey_number player_update with
        | Some n => VInt n
        | None => existing_player@2
        end in
      let updated_position :=
        match PlayerUpdate.position player_update with
        | Some s => VStr s
        | None => existing_player@3
        end in
      let updated_team_id :=
        match PlayerUpdate.team_id player_update with
        | Some n => VInt n
        | None => existing_player@4
        end in
      _ <- execute (UPDATE players [("name", updated_name);
                                    ("jersey_number", updated_jersey_number);
                                    ("position", updated_position);
                                    ("team_id", updated_team_id)]
                      player_id) ;;
      ret [("id", VInt player_id); ("name", updated_name);
           ("jersey_number", updated_jersey_number);
           ("position", updated_position); ("team_id", updated_team_id)]
  end.

Definition delete_player (player_id : Z) : M dict :=
  cur <- execute (DELETE players player_id) ;;
  if rowcount cur =? 0 then raise 404 "Player not found"
  else ret [("detail", VStr "Player deleted successfully")].

(** ** Routes: the decorators

    [@app.post(path, response_model=XCreate)] and
    [@app.put(path, response_model=XUpdate)] declare the model of the
    response; the GET and DELETE routes declare none. *)

(** The body of a response: a JSON object, a JSON array of objects, or
    plain text. *)
Inductive json : Type :=
| JObject (d : dict)
| JArray (l : list dict)
| PlainText (s : string).

Record response : Type := mkResponse { status : Z; body : json }.

(** A value that validates against an annotation: a string for [str], an
    integer for [int].  [None] validates against neither. *)
Definition has_type (ty : ftype) (v : value) : bool :=
  match ty, v with
  | TStr, VStr _ => true
  | TInt, VInt _ => true
  | _, _ => false
  end.

(** What FastAPI does on a route with [response_model]: the value the
    handler returned is validated into the declared model and the response
    is that model's dump, so only the model's fields are sent and keys the
    model does not declare are dropped.  A declared field whose value does
    not validate makes the validation fail ([None] here); a field the
    content lacks takes its default [None] when the model gives it one
    ([optional], the Update models) and fails the validation otherwise. *)
Fixpoint response_model (declared : list (string * ftype)) (optional : bool)
    (content : dict) : option dict :=
  match declared with
  | [] => Some []
  | (k, ty) :: declared' =>
      match assoc k content with
      | Some v =>
          if has_type ty v then
            option_map (cons (k, v)) (response_model declared' optional content)
          else None
      | None =>
          if optional then
            option_map (cons (k, VNone))
                       (response_model declared' optional content)
          else None
      end
  end.

(** An uncaught exception, in a handler or in the validation of its
    response, is answered with status 500 and a plain-text body. *)
Definition internal_server_error : response :=
  mkResponse 500 (PlainText "Internal Server Error").

(** A returned value that encodes is sent with status 200; an
    [HTTPException] with its status code and the body [{"detail": ...}]. *)
Definition respond {A : Type} (encode : A -> option json) (r : result A)
    : response :=
  match r with
  | Return a =>
      match encode a with
      | Some j => mkResponse 200 j
      | None => internal_server_error
      end
  | HTTPException code msg => mkResponse code (JObject [("detail", VStr msg)])
  | Uncaught _ => internal_server_error
  end.

Definition route {A : Type} (encode : A -> option json) (m : M A) (d : DB)
    : response * DB :=
  (respond encode (outcome m d), after m d).

Inductive request : Type :=
| POST_polls (poll : PollCreate.t)
| GET_polls
| GET_poll (poll_id : Z)
| PUT_poll (poll_id : Z) (poll_update : PollUpdate.t)
| DELETE_poll (poll_id : Z)
| POST_comments (comment : CommentCreate.t)
| GET_comments
| GET_comment (comment_id : Z)
| PUT_comment (comment_id : Z) (comment_update : CommentUpdate.t)
| DELETE_comment (comment_id : Z)
| POST_teams (team : TeamCreate.t)
| GET_teams
| GET_team (team_id : Z)
| PUT_team (team_id : Z) (team_update : TeamUpdate.t)
| DELETE_team (team_id : Z)
| POST_players (player : PlayerCreate.t)
| GET_players
| GET_player (player_id : Z)
| PUT_player (player_id : Z) (player_update : PlayerUpdate.t)
| DELETE_player (player_id : Z).

(** The encoder of a route that declares a response model; [to_dict] turns
    what the handler returned into a dict (the identity on a dict, the dump
    on a model object). *)
Definition model {A : Type} (declared : list (string * ftype))
    (optional : bool) (to_dict : A -> dict) (a : A) : option json :=
  option_map JObject (response_model declared optional (to_dict a)).

Definition plain (d : dict) : dict := d.

(** The encoder of a route that declares no response model: what the
    handler returned is sent as it is. *)
Definition as_is {A : Type} (f : A -> json) (a : A) : option json :=
  Some (f a).

Definition app (rq : request) : DB -> response * DB :=
  match rq with
  | POST_polls p =>
      route (model PollCreate.declared false PollCreate.to_dict)
            (create_poll p)
  | GET_polls => route (as_is JArray) get_polls
  | GET_poll i => route (as_is JObject) (get_poll i)
  | PUT_poll i u =>
      route (model PollUpdate.declared true plain) (update_poll i u)
  | DELETE_poll i => route (as_is JObject) (delete_poll i)
  | POST_comments c =>
      route (model CommentCreate.declared false CommentCreate.to_dict)
            (create_comment c)
  | GET_comments => route (as_is JArray) get_comments
  | GET_comment i => route (as_is JObject) (get_comment i)
  | PUT_comment i u =>
      route (model CommentUpdate.declared true plain) (update_comment i u)
  | DELETE_comment i => route (as_is JObject) (delete_comment i)
  | POST_teams t =>
      route (model TeamCreate.declared false TeamCreate.to_dict)
            (create_team t)
  | GET_teams => route (as_is JArray) get_teams
  | GET_team i => route (as_is JObject) (get_team i)
  | PUT_team i u =>
      route (model TeamUpdate.declared true plain) (update_team i u)
  | DELETE_team i => route (as_is JObject) (delete_team i)
  | POST_players p =>
      route (model PlayerCreate.declared false PlayerCreate.to_dict)
            (create_player p)
  | GET_players => route (as_is JArray) get_players
  | GET_player i => route (as_is JObject) (get_player i)
  | PUT_player i u =>
      route (model PlayerUpdate.declared true plain) (update_player i u)
  | DELETE_player i => route (as_is JObject) (delete_player i)
  end.

(** The store after a sequence of requests, oldest first. *)
Definition serve (rqs : list request) (d : DB) : DB :=
  fold_left (fun d rq => snd (app rq d)) rqs d.

(** The states the service can be in, started on a fresh database. *)
Definition reachable (d : DB) : Prop :=
  exists rqs : list request, d = serve rqs init_db.

(** * Vocabulary of the properties *)

(** ** The four resources, uniformly

    The program repeats one pattern per table.  These dispatchers name the
    instance of each piece for a table, so that a property can be stated once
    for every resource. *)

Definition CreateModel (t : tname) : Type :=
  match t with
  | polls => PollCreate.t
  | comments => CommentCreate.t
  | teams => TeamCreate.t
  | players => PlayerCreate.t
  end.

Definition UpdateModel (t : tname) : Type :=
  match t with
  | polls => PollUpdate.t
  | comments => CommentUpdate.t
  | teams => TeamUpdate.t
  | players => PlayerUpdate.t
  end.

Definition create_fields (t : tname) : list string :=
  match t with
  | polls => PollCreate.fields
  | comments => CommentCreate.fields
  | teams => TeamCreate.fields
  | players => PlayerCreate.fields
  end.

Definition update_fields (t : tname) : list string :=
  match t with
  | polls => PollUpdate.fields
  | comments => CommentUpdate.fields
  | teams => TeamUpdate.fields
  | players => PlayerUpdate.fields
  end.

Definition create_dict (t : tname) : CreateModel t -> dict :=
  match t with
  | polls => PollCreate.to_dict
  | comments => CommentCreate.to_dict
  | teams => TeamCreate.to_dict
  | players => PlayerCreate.to_dict
  end.

Definition update_dict (t : tname) : UpdateModel t -> dict :=
  match t with
  | polls => PollUpdate.to_dict
  | comments => CommentUpdate.to_dict
  | teams => TeamUpdate.to_dict
  | players => PlayerUpdate.to_dict
  end.

Definition create (t : tname) : CreateModel t -> M (CreateModel t) :=
  match t with
  | polls => create_poll
  | comments => create_comment
  | teams => create_team
  | players => create_player
  end.

Definition get_all (t : tname) : M (list dict) :=
  match t with
  | polls => get_polls
  | comments => get_comments
  | teams => get_teams
  | players => get_players
  end.

Definition get_one (t : tname) : Z -> M dict :=
  match t with
  | polls => get_poll
  | comments => get_comment
  | teams => get_team
  | players => get_player
  end.

Definition update_one (t : tname) : Z -> UpdateModel t -> M dict :=
  match t with
  | polls => update_poll
  | comments => update_comment
  | teams => update_team
  | players => update_player
  end.

Definition delete_one (t : tname) : Z -> M dict :=
  match t with
  | polls => delete_poll
  | comments => delete_comment
  | teams => delete_team
  | players => delete_player
  end.

Definition POST (t : tname) : CreateModel t -> request :=
  match t with
  | polls => POST_polls
  | comments => POST_comments
  | teams => POST_teams
  | players => POST_players
  end.

Definition GET_all (t : tname) : request :=
  match t with
  | polls => GET_polls
  | comments => GET_comments
  | teams => GET_teams
  | players => GET_players
  end.

Definition GET (t : tname) : Z -> request :=
  match t with
  | polls => GET_poll
  | comments => GET_comment
  | teams => GET_team
  | players => GET_player
  end.

Definition PUT (t : tname) : Z -> UpdateModel t -> request :=
  match t with
  | polls => PUT_poll
  | comments => PUT_comment
  | teams => PUT_team
  | players => PUT_player
  end.

Definition DELETE_one (t : tname) : Z -> request :=
  match t with
  | polls => DELETE_poll
  | comments => DELETE_comment
  | teams => DELETE_team
  | players => DELETE_player
  end.

Definition not_found (t : tname) : response :=
  mkResponse 404
    (JObject [("detail", VStr match t with
                              | polls => "Poll not found"
                              | comments => "Comment not found"
                              | teams => "Team not found"
                              | players => "Player not found"
                              end)]).

(** The record of a row: each column name of the schema with the value at
    its position. *)
Fixpoint zip_row (cols : list string) (k : nat) (r : row) : dict :=
  match cols with
  | [] => []
  | c :: cols' => (c, r@k) :: zip_row cols' (S k) r
  end.

Definition record (t : tname) (r : row) : dict :=
  zip_row (keys (schema t)) 0 r.

(** The row [WHERE id = ?] selects first, if any. *)
Definition lookup (t : tname) (i : Z) (d : DB) : option row :=
  hd_error (matching t i d).

(** The columns an executed statement assigns. *)
Definition written (s : stmt) : list string :=
  match s with
  | INSERT _ cols _ => cols
  | UPDATE _ sets _ => keys sets
  | SELECT_ALL _ | SELECT_WHERE_ID _ _ | DELETE _ _ => []
  end.

(** Rows have the arity of the schema and an integer id; ids are unique
    within a table (PRIMARY KEY). *)
Definition wf_row (t : tname) (r : row) : Prop :=
  length r = length (schema t) /\ exists i, row_id r = Some i.

Definition wf_table (t : tname) (tb : table) : Prop :=
  Forall (wf_row t) (rows tb) /\ NoDup (map row_id (rows tb)).

Definition wf_db (d : DB) : Prop := forall t, wf_table t (table_of t d).

(** ** Response models, by table *)

Definition create_declared (t : tname) : list (string * ftype) :=
  match t with
  | polls => PollCreate.declared
  | comments => CommentCreate.declared
  | teams => TeamCreate.declared
  | players => PlayerCreate.declared
  end.

Definition update_declared (t : tname) : list (string * ftype) :=
  match t with
  | polls => PollUpdate.declared
  | comments => CommentUpdate.declared
  | teams => TeamUpdate.declared
  | players => PlayerUpdate.declared
  end.

(** What a route with a response model answers when its handler returned
    [content]. *)
Definition validated (declared : list (string * ftype)) (optional : bool)
    (content : dict) : response :=
  match response_model declared optional content with
  | Some o => mkResponse 200 (JObject o)
  | None => internal_server_error
  end.

(** ** What a request can bind *)

(** Every integer of a dict is in the 64-bit range, so [sqlite3] binds its
    values. *)
Definition fits (l : dict) : bool := forallb bindable (map snd l).

(** The table has an id left to hand out. *)
Definition has_room (t : tname) (d : DB) : bool :=
  next_rowid (table_of t d) <=? int64_max.

(** ** The store after a request *)

(** The row a Create stores: fresh id, the input's values, defaults. *)
Definition created_row (t : tname) (x : CreateModel t) (d : DB) : row :=
  new_row t (next_rowid (table_of t d)) (create_fields t)
          (map snd (create_dict t x)).

Definition insert_row (t : tname) (r : row) (d : DB) : DB :=
  set_table t (mkTable (rows (table_of t d) ++ [r])
                       (next_rowid (table_of t d))) d.

Definition update_rows (t : tname) (sets : list (string * value)) (i : Z)
    (d : DB) : DB :=
  set_table t
    (mkTable (map (fun r => if has_id i r then update_row t sets r else r)
                  (rows (table_of t d)))
             (seq (table_of t d))) d.

Definition delete_rows (t : tname) (i : Z) (d : DB) : DB :=
  set_table t
    (mkTable (filter (fun r => negb (has_id i r)) (rows (table_of t d)))
             (seq (table_of t d))) d.

(** ** Partial update, as the specification words it

    "For each field, if partial supplies a non-null value, replace;
    otherwise retain the existing stored value."  [merged] is that rule
    applied column by column; the handlers are compared with it below. *)

Definition merge_value (new old : value) : value :=
  match new with
  | VNone => old
  | _ => new
  end.

(** The value a partial supplies for a column: [None] when the model has no
    such field. *)
Definition supplied (partial : dict) (c : string) : value :=
  match assoc c partial with
  | Some v => v
  | None => VNone
  end.

Fixpoint merge_from (cols : list string) (k : nat) (partial : dict) (r : row)
    : row :=
  match cols with
  | [] => []
  | c :: cols' =>
      merge_value (supplied partial c) r@k :: merge_from cols' (S k) partial r
  end.

Definition merged (t : tname) (u : UpdateModel t) (r : row) : row :=
  merge_from (keys (schema t)) 0 (update_dict t u) r.

(** The SET list of an update: the columns of the Update model, each with
    its merged value. *)
Definition set_list (t : tname) (u : UpdateModel t) (r : row)
    : list (string * value) :=
  filter (fun cv => existsb (String.eqb (fst cv)) (update_fields t))
         (record t (merged t u r)).

(** What an Update handler returns on a fetched row [r]: the path parameter
    as [id], and the merged value of every other column. *)
Definition returned (t : tname) (i : Z) (u : UpdateModel t) (r : row) : dict :=
  record t (VInt i :: tl (merged t u r)).

(** A partial with every field unset. *)
Definition unset (t : tname) (u : UpdateModel t) : Prop :=
  forall k v, In (k, v) (update_dict t u) -> v = VNone.

(** "Writes all fields in a single full-row rewrite": some statement of the
    update assigns every column of the table other than the id. *)
Definition rewrites_full_row (t : tname) (i : Z) (u : UpdateModel t) (d : DB)
    : Prop :=
  exists s, In s (statements (update_one t i u) d) /\
            forall c, In c (keys (schema t)) -> c <> "id" -> In c (written s).

(** ** Steps of the store *)

(** Every request leaves the store as it was, or appends the created row to
    one table, or rewrites the rows of one id in one table with the SET list
    of its handler, or deletes the rows of one id from one table. *)
Inductive store_step (d : DB) : DB -> Prop :=
| step_none : store_step d d
| step_insert (t : tname) (x : CreateModel t) :
    fits (create_dict t x) = true ->
    has_room t d = true ->
    store_step d (insert_row t (created_row t x d) d)
| step_update (t : tname) (i : Z) (u : UpdateModel t) (r : row) :
    lookup t i d = Some r ->
    fits (set_list t u r) = true ->
    store_step d (update_rows t (set_list t u r) i d)
| step_delete (t : tname) (i : Z) :
    store_step d (delete_rows t i d).

(** Every poll row has [likes] 0. *)
Definition likes_zero (d : DB) : Prop :=
  forall r, In r (rows (polls_tbl d)) -> r@2 = VInt 0.

(** ** Responses *)

Definition deleted_message (t : tname) : string :=
  match t with
  | polls => "Poll deleted successfully"
  | comments => "Comment deleted successfully"
  | teams => "Team deleted successfully"
  | players => "Player deleted successfully"
  end.

(** The object a response carries. *)
Definition sent (out : response * DB) : dict :=
  match body (fst out) with
  | JObject o => o
  | JArray _ | PlainText _ => []
  end.

(** The records a ListAll answers with. *)
Definition listing (t : tname) (d : DB) : list dict :=
  match body (fst (app (GET_all t) d)) with
  | JArray l => l
  | JObject _ | PlainText _ => []
  end.

(** ** Example stores *)

(** One poll, as after the first request of the scenario of the
    specification. *)
Definition one_poll : DB :=
  serve [POST_polls (PollCreate.mk "Best sport?")] init_db.

Definition one_team : DB :=
  serve [POST_teams (TeamCreate.mk "Lakers" "Los Angeles" 17)] init_db.

(** One comment, on a poll that is not there. *)
Definition one_comment : DB :=
  serve [POST_comments (CommentCreate.mk 999 "hi")] init_db.

(** The least integer above the 64-bit range. *)
Definition beyond_int64 : Z := int64_max + 1.


(** ** Requests, by table and by statement *)

(** The table of the resource a request is about. *)
Definition request_table (rq : request) : tname :=
  match rq with
  | POST_polls _ | GET_polls | GET_poll _ | PUT_poll _ _ | DELETE_poll _ =>
      polls
  | POST_comments _ | GET_comments | GET_comment _ | PUT_comment _ _
  | DELETE_comment _ => comments
  | POST_teams _ | GET_teams | GET_team _ | PUT_team _ _ | DELETE_team _ =>
      teams
  | POST_players _ | GET_players | GET_player _ | PUT_player _ _
  | DELETE_player _ => players
  end.


(** The statements the handler of a request executes, in order. *)
Definition request_statements (rq : request) (d : DB) : list stmt :=
  match rq with
  | POST_polls p => statements (create_poll p) d
  | GET_polls => statements get_polls d
  | GET_poll i => statements (get_poll i) d
  | PUT_poll i u => statements (update_poll i u) d
  | DELETE_poll i => statements (delete_poll i) d
  | POST_comments c => statements (create_comment c) d
  | GET_comments => statements get_comments d
  | GET_comment i => statements (get_comment i) d
  | PUT_comment i u => statements (update_comment i u) d
  | DELETE_comment i => statements (delete_comment i) d
  | POST_teams t => statements (create_team t) d
  | GET_teams => statements get_teams d
  | GET_team i => statements (get_team i) d
  | PUT_team i u => statements (update_team i u) d
  | DELETE_team i => statements (delete_team i) d
  | POST_players p => statements (create_player p) d
  | GET_players => statements get_players d
  | GET_player i => statements (get_player i) d
  | PUT_player i u => statements (update_player i u) d
  | DELETE_player i => statements (delete_player i) d
  end.



(** ** More invariants of the store *)

(** No column of any row is NULL. *)
Definition no_nulls (d : DB) : Prop :=
  forall t r, In r (rows (table_of t d)) -> Forall (fun v => v <> VNone) r.

(** Every id in a table is positive and at most the table's
    [sqlite_sequence] counter. *)
Definition ids_bounded (d : DB) : Prop :=
  forall t r i, In r (rows (table_of t d)) -> row_id r = Some i ->
                0 < i <= seq (table_of t d).

(** A value of a column's declared type that SQLite holds: a 64-bit integer
    in an INTEGER column, a string in a TEXT column. *)
Definition storable (ty : ctype) (v : value) : Prop :=
  match ty, v with
  | INTEGER, VInt n => in_range n = true
  | TEXT, VStr _ => True
  | _, _ => False
  end.

(** Every column of every row holds a value of its declared type. *)
Definition typed (d : DB) : Prop :=
  forall t r, In r (rows (table_of t d)) -> Forall2 storable (column_types t) r.

(** The ids of a table, in row order. *)
Definition ids (t : tname) (d : DB) : list (option Z) :=
  map row_id (rows (table_of t d)).

(** * Properties *)

(** ** Tables of the store *)

Lemma table_of_set_table (t : tname) (tb : table) (d : DB) :
  table_of t (set_table t tb d) = tb.
Proof. destruct t; reflexivity. Qed.

Lemma table_of_set_table_ne (t t' : tname) (tb : table) (d : DB) :
  t' <> t -> table_of t' (set_table t tb d) = table_of t' d.
Proof. destruct t, t'; intros H; try reflexivity; contradiction H; reflexivity. Qed.

Lemma set_table_table_of (t : tname) (d : DB) :
  set_table t (table_of t d) d = d.
Proof. destruct t, d; reflexivity. Qed.

Lemma table_eta (tb : table) : mkTable (rows tb) (seq tb) = tb.
Proof. destruct tb; reflexivity. Qed.

(** ** The 64-bit range *)

Lemma in_range_iff (n : Z) :
  in_range n = true <-> int64_min <= n <= int64_max.
Proof.
  unfold in_range. rewrite andb_true_iff, !Z.leb_le. reflexivity.
Qed.

Lemma row_id_in_range (r : row) (i : Z) :
  row_id r = Some i -> in_range i = true /\ r@0 = VInt i.
Proof.
  destruct r as [|[ |j|s] r]; simpl; try discriminate.
  destruct (in_range j) eqn:E; [|discriminate].
  intros H. injection H as <-. split; [exact E|reflexivity].
Qed.

Lemma row_id_of_item (r : row) (i : Z) :
  r@0 = VInt i -> in_range i = true -> row_id r = Some i.
Proof.
  destruct r as [|v r]; unfold item; simpl; [discriminate|].
  intros -> H. rewrite H. reflexivity.
Qed.

(** ** What each statement does *)

Lemma sql_insert (t : tname) (cols : list string) (vals : list value)
    (d : DB) :
  sql (INSERT t cols vals) d
    = if forallb bindable vals then
        if has_room t d then
          inr (set_table t
                 (mkTable (rows (table_of t d)
                           ++ [new_row t (next_rowid (table_of t d)) cols vals])
                          (next_rowid (table_of t d))) d,
               mkCursor [] 1)
        else inl OperationalError
      else inl OverflowError.
Proof. reflexivity. Qed.

Lemma sql_select (t : tname) (i : Z) (d : DB) :
  sql (SELECT_WHERE_ID t i) d
    = if in_range i then inr (d, mkCursor (matching t i d) (-1))
      else inl OverflowError.
Proof.
  unfold sql, params, forallb, bindable. rewrite andb_true_r. reflexivity.
Qed.

Lemma sql_delete (t : tname) (i : Z) (d : DB) :
  sql (DELETE t i) d
    = if in_range i then
        inr (set_table t
               (mkTable (filter (fun r => negb (has_id i r))
                                (rows (table_of t d)))
                        (seq (table_of t d))) d,
             mkCursor [] (Z.of_nat (length (matching t i d))))
      else inl OverflowError.
Proof.
  unfold sql, params, forallb, bindable. rewrite andb_true_r. reflexivity.
Qed.

Lemma sql_update (t : tname) (sets : list (string * value)) (i : Z) (d : DB) :
  in_range i = true ->
  sql (UPDATE t sets i) d
    = if fits sets then
        inr (set_table t
               (mkTable (map (fun r => if has_id i r then update_row t sets r
                                       else r)
                             (rows (table_of t d)))
                        (seq (table_of t d))) d,
             mkCursor [] (Z.of_nat (length (matching t i d))))
      else inl OverflowError.
Proof.
  intros Hi. unfold sql, params, fits. rewrite forallb_app. simpl.
  rewrite Hi, !andb_true_r. reflexivity.
Qed.

(** ** What each route computes *)

Ltac unfold_handlers :=
  unfold app, POST, GET_all, GET, PUT, DELETE_one, route, model, plain, as_is,
    outcome, after, statements, run,
    create, get_all, get_one, update_one, delete_one,
    create_poll, get_polls, get_poll, update_poll, delete_poll,
    create_comment, get_comments, get_comment, update_comment, delete_comment,
    create_team, get_teams, get_team, update_team, delete_team,
    create_player, get_players, get_player, update_player, delete_player,
    bind, ret, raise, execute, fetchone, fetchall, lookup in *;
  cbn [store executed fst snd List.app] in *.

Lemma run_create (t : tname) (x : CreateModel t) (d : DB) :
  run (create t x) d
    = if fits (create_dict t x) && has_room t d then
        (Return x,
         mkConn (insert_row t (created_row t x d) d)
                [INSERT t (create_fields t) (map snd (create_dict t x))])
      else
        (Uncaught (if fits (create_dict t x) then OperationalError
                   else OverflowError),
         mkConn d [INSERT t (create_fields t) (map snd (create_dict t x))]).
Proof.
  destruct t; unfold_handlers; rewrite sql_insert;
    unfold fits, insert_row, created_row;
    match goal with
    | |- context [forallb bindable ?l] =>
        change l with (map snd (create_dict _ x)) ||
        idtac
    end.
  all: match goal with
       | |- context [if ?b then _ else _] => destruct b
       end; simpl andb; cbv iota;
       try (destruct (has_room _ d)); reflexivity.
Qed.


Lemma run_get_one (t : tname) (i : Z) (d : DB) :
  run (get_one t i) d
    = (if in_range i then
         match lookup t i d with
         | Some r => Return (record t r)
         | None =>
             HTTPException 404 match t with
                               | polls => "Poll not found"
                               | comments => "Comment not found"
                               | teams => "Team not found"
                               | players => "Player not found"
                               end
         end
       else Uncaught OverflowError,
       mkConn d [SELECT_WHERE_ID t i]).
Proof.
  destruct t; unfold_handlers; rewrite sql_select;
    (destruct (in_range i); [|reflexivity]);
    cbn [fetched hd_error]; destruct (matching _ i d); reflexivity.
Qed.

Lemma run_delete_one (t : tname) (i : Z) (d : DB) :
  run (delete_one t i) d
    = if in_range i then
        (match lookup t i d with
         | Some _ => Return [("detail", VStr (deleted_message t))]
         | None =>
             HTTPException 404 match t with
                               | polls => "Poll not found"
                               | comments => "Comment not found"
                               | teams => "Team not found"
                               | players => "Player not found"
                               end
         end,
         mkConn (delete_rows t i d) [DELETE t i])
      else (Uncaught OverflowError, mkConn d [DELETE t i]).
Proof.
  destruct t; unfold_handlers; rewrite sql_delete;
    (destruct (in_range i); [|reflexivity]);
    cbn [rowcount]; destruct (matching _ i d); reflexivity.
Qed.

Lemma lookup_in_range (t : tname) (i : Z) (d : DB) (r : row) :
  lookup t i d = Some r -> in_range i = true.
Proof.
  unfold lookup, matching. intros H.
  assert (Hin : In r (filter (has_id i) (rows (table_of t d)))).
  { destruct (filter _ _); simpl in H; [discriminate|].
    injection H as ->. left. reflexivity. }
  apply filter_In in Hin. destruct Hin as [_ Hid]. unfold has_id in Hid.
  destruct (row_id r) as [j|] eqn:E; [|discriminate].
  apply Z.eqb_eq in Hid. subst j. apply (row_id_in_range r i E).
Qed.

Ltac same_fits :=
  match goal with
  | |- context [if fits ?L then inr _ else _] =>
      match goal with
      | |- _ = (if fits ?S then _ else _) =>
          change (fits L) with (fits S); destruct (fits S); reflexivity
      end
  end.

Lemma run_update_found (t : tname) (i : Z) (u : UpdateModel t) (d : DB)
    (r : row) :
  lookup t i d = Some r ->
  run (update_one t i u) d =
  if fits (set_list t u r) then
    (Return (returned t i u r),
     mkConn (update_rows t (set_list t u r) i d)
            [SELECT_WHERE_ID t i; UPDATE t (set_list t u r) i])
  else
    (Uncaught OverflowError,
     mkConn d [SELECT_WHERE_ID t i; UPDATE t (set_list t u r) i]).
Proof.
  intros H. pose proof (lookup_in_range t i d r H) as Hi.
  destruct t; unfold_handlers; rewrite sql_select, Hi;
    cbn [fetched hd_error]; rewrite H; cbv iota beta.
  - destruct u as [[q|]]; cbv zeta; rewrite (sql_update _ _ _ _ Hi);
      same_fits.
  - destruct u as [[c|]]; cbv zeta; rewrite (sql_update _ _ _ _ Hi);
      same_fits.
  - destruct u as [[n|] [c|] [k|]]; cbv zeta;
      rewrite (sql_update _ _ _ _ Hi);
      same_fits.
  - destruct u as [[n|] [j|] [p|] [k|]]; cbv zeta;
      rewrite (sql_update _ _ _ _ Hi);
      same_fits.
Qed.

Lemma run_update_missing (t : tname) (i : Z) (u : UpdateModel t) (d : DB) :
  lookup t i d = None ->
  run (update_one t i u) d =
  (if in_range i then
     HTTPException 404 match t with
                       | polls => "Poll not found"
                       | comments => "Comment not found"
                       | teams => "Team not found"
                       | players => "Player not found"
                       end
   else Uncaught OverflowError,
   mkConn d [SELECT_WHERE_ID t i]).
Proof.
  intros H. destruct t; unfold_handlers; rewrite sql_select;
    (destruct (in_range i); [|reflexivity]);
    cbn [fetched hd_error]; rewrite H; reflexivity.
Qed.

Lemma create_validates (t : tname) (x : CreateModel t) :
  response_model (create_declared t) false (create_dict t x)
    = Some (create_dict t x).
Proof. destruct t; reflexivity. Qed.

Lemma app_POST (t : tname) (x : CreateModel t) (d : DB) :
  app (POST t x) d =
  if fits (create_dict t x) && has_room t d then
    (mkResponse 200 (JObject (create_dict t x)),
     insert_row t (created_row t x d) d)
  else (internal_server_error, d).
Proof.
  pose proof (run_create t x d) as E.
  destruct t; cbv beta iota delta [app POST route outcome after model];
    cbv beta iota delta [create CreateModel] in E; rewrite E;
    match goal with
    | |- context [if ?b then _ else _] => destruct b
    end; reflexivity.
Qed.

Lemma statements_create (t : tname) (x : CreateModel t) (d : DB) :
  statements (create t x) d =
  [INSERT t (create_fields t) (map snd (create_dict t x))].
Proof.
  unfold statements. rewrite run_create.
  destruct (fits (create_dict t x) && has_room t d); reflexivity.
Qed.

Lemma app_GET_all (t : tname) (d : DB) :
  app (GET_all t) d =
  (mkResponse 200 (JArray (map (record t) (rows (table_of t d)))), d).
Proof. destruct t; reflexivity. Qed.

Lemma app_GET (t : tname) (i : Z) (d : DB) :
  app (GET t i) d =
  (if in_range i then
     match lookup t i d with
     | Some r => mkResponse 200 (JObject (record t r))
     | None => not_found t
     end
   else internal_server_error, d).
Proof.
  pose proof (run_get_one t i d) as E.
  destruct t; cbv beta iota delta [app GET route outcome after];
    cbv beta iota delta [get_one] in E; rewrite E;
    destruct (in_range i); [|reflexivity| |reflexivity| |reflexivity|
                            |reflexivity];
    destruct (lookup _ i d); reflexivity.
Qed.

Lemma app_DELETE (t : tname) (i : Z) (d : DB) :
  app (DELETE_one t i) d =
  if in_range i then
    (match lookup t i d with
     | Some _ =>
         mkResponse 200 (JObject [("detail", VStr (deleted_message t))])
     | None => not_found t
     end, delete_rows t i d)
  else (internal_server_error, d).
Proof.
  pose proof (run_delete_one t i d) as E.
  destruct t; cbv beta iota delta [app DELETE_one route outcome after];
    cbv beta iota delta [delete_one] in E; rewrite E;
    destruct (in_range i); [|reflexivity| |reflexivity| |reflexivity|
                            |reflexivity];
    destruct (lookup _ i d); reflexivity.
Qed.

Lemma app_PUT_found (t : tname) (i : Z) (u : UpdateModel t) (d : DB)
    (r : row) :
  lookup t i d = Some r ->
  app (PUT t i u) d =
  if fits (set_list t u r) then
    (validated (update_declared t) true (returned t i u r),
     update_rows t (set_list t u r) i d)
  else (internal_server_error, d).
Proof.
  intros H. pose proof (run_update_found t i u d r H) as E.
  destruct t;
    cbv beta iota delta [app PUT route outcome after model plain validated
                         update_declared];
    cbv beta iota delta [update_one UpdateModel] in E; rewrite E;
    destruct (fits (set_list _ u r)); [|reflexivity| |reflexivity|
                                       |reflexivity| |reflexivity];
    cbn [fst snd store respond];
    match goal with
    | |- context [response_model ?a ?b ?c] => destruct (response_model a b c)
    end; reflexivity.
Qed.

Lemma app_PUT_missing (t : tname) (i : Z) (u : UpdateModel t) (d : DB) :
  lookup t i d = None ->
  app (PUT t i u) d
    = (if in_range i then not_found t else internal_server_error, d).
Proof.
  intros H. pose proof (run_update_missing t i u d H) as E.
  destruct t; cbv beta iota delta [app PUT route outcome after model plain];
    cbv beta iota delta [update_one UpdateModel] in E; rewrite E;
    destruct (in_range i); reflexivity.
Qed.


Lemma created_row_poll (x : PollCreate.t) (d : DB) :
  created_row polls x d =
  [VInt (next_rowid (polls_tbl d)); VStr (PollCreate.question x); VInt 0].
Proof. reflexivity. Qed.


(** ** Selecting and deleting by id *)

Section ById.
Variable i : Z.

Lemma matching_nil_iff (rs : list row) :
  filter (has_id i) rs = [] <->
  (forall r, In r rs -> row_id r <> Some i).
Proof.
  induction rs as [|r rs IH]; simpl.
  - split; [intros _ r []|reflexivity].
  - unfold has_id at 1. destruct (row_id r) as [j|] eqn:Hr.
    + destruct (Z.eqb_spec j i) as [->|Hne].
      * split; [discriminate|]. intros H.
        exfalso. apply (H r); [left; reflexivity|exact Hr].
      * rewrite IH. split.
        -- intros H r' [<-|Hin]; [rewrite Hr; congruence|apply H; exact Hin].
        -- intros H r' Hin. apply H. right. exact Hin.
    + rewrite IH. split.
      * intros H r' [<-|Hin]; [rewrite Hr; discriminate|apply H; exact Hin].
      * intros H r' Hin. apply H. right. exact Hin.
Qed.

Lemma has_id_row_id (r : row) : has_id i r = true <-> row_id r = Some i.
Proof.
  unfold has_id. destruct (row_id r) as [j|].
  - rewrite Z.eqb_eq. split; congruence.
  - split; discriminate.
Qed.

(** DELETE leaves no row that [WHERE id = ?] would select. *)
Lemma matching_deleted (rs : list row) :
  filter (has_id i) (filter (fun r => negb (has_id i r)) rs) = [].
Proof.
  induction rs as [|r rs IH]; simpl; [reflexivity|].
  destruct (has_id i r) eqn:Hr; simpl; [exact IH|].
  rewrite Hr. exact IH.
Qed.

(** DELETE with no matching row removes nothing. *)
Lemma delete_none (rs : list row) :
  filter (has_id i) rs = [] ->
  filter (fun r => negb (has_id i r)) rs = rs.
Proof.
  induction rs as [|r rs IH]; simpl; [reflexivity|].
  destruct (has_id i r) eqn:Hr; simpl; [discriminate|].
  intros H. rewrite (IH H). reflexivity.
Qed.

(** DELETE keeps the rows of every other id, in order. *)
Lemma matching_other_deleted (j : Z) (rs : list row) :
  j <> i ->
  filter (has_id j) (filter (fun r => negb (has_id i r)) rs)
    = filter (has_id j) rs.
Proof.
  intros Hne. induction rs as [|r rs IH]; simpl; [reflexivity|].
  destruct (has_id i r) eqn:Hi; simpl.
  - destruct (has_id j r) eqn:Hj; [|exact IH].
    apply has_id_row_id in Hi.
    unfold has_id in Hj. rewrite Hi in Hj.
    apply Z.eqb_eq in Hj. congruence.
  - rewrite IH. reflexivity.
Qed.

End ById.

Lemma lookup_None_iff (t : tname) (i : Z) (d : DB) :
  lookup t i d = None <->
  (forall r, In r (rows (table_of t d)) -> row_id r <> Some i).
Proof.
  rewrite <- matching_nil_iff. unfold lookup, matching.
  destruct (filter _ _); simpl; split; congruence.
Qed.

Lemma lookup_Some_in (t : tname) (i : Z) (d : DB) (r : row) :
  lookup t i d = Some r ->
  In r (rows (table_of t d)) /\ row_id r = Some i.
Proof.
  unfold lookup, matching. intros H.
  assert (Hin : In r (filter (has_id i) (rows (table_of t d)))).
  { destruct (filter _ _); simpl in H; [discriminate|].
    injection H as ->. left. reflexivity. }
  apply filter_In in Hin. destruct Hin as [Hin Hid].
  split; [exact Hin|apply has_id_row_id; exact Hid].
Qed.

Lemma delete_rows_missing (t : tname) (i : Z) (d : DB) :
  lookup t i d = None -> delete_rows t i d = d.
Proof.
  intros H. unfold delete_rows. rewrite delete_none.
  - rewrite table_eta. apply set_table_table_of.
  - unfold lookup, matching in H. destruct (filter _ _); [reflexivity|discriminate].
Qed.

Lemma lookup_deleted (t : tname) (i : Z) (d : DB) :
  lookup t i (delete_rows t i d) = None.
Proof.
  unfold lookup, matching, delete_rows. rewrite table_of_set_table. simpl.
  rewrite matching_deleted. reflexivity.
Qed.


(** ** C1 *)




(** ** C3 *)

(** C3, as stated, fails.  No poll has the id just above the 64-bit range,
    yet GET, PUT and DELETE on it answer 500, not 404: binding the id raises
    [OverflowError] before any row is looked for. *)
Lemma missing_huge_id_not_404 :
  (forall r, In r (rows (table_of polls one_poll)) ->
             r@0 <> VInt beyond_int64) /\
  fst (app (GET_poll beyond_int64) one_poll) = internal_server_error /\
  fst (app (PUT_poll beyond_int64 (PollUpdate.mk (Some "x"))) one_poll)
    = internal_server_error /\
  fst (app (DELETE_poll beyond_int64) one_poll) = internal_server_error /\
  internal_server_error <> not_found polls.
Proof.
  split; [|repeat split; discriminate].
  intros r [<-|[]]. discriminate.
Qed.

(** C3, amended.  For every resource and every id in the signed 64-bit
    range that no row of its table carries, GET, PUT and DELETE on that id
    each answer 404 with the detail message of the resource ("Poll not
    found", ...), the handler raises instead of returning a record, and the
    store is left as it was. *)
Theorem missing_id_not_found (t : tname) (i : Z) (u : UpdateModel t) (d : DB) :
  in_range i = true ->
  (forall r, In r (rows (table_of t d)) -> row_id r <> Some i) ->
  app (GET t i) d = (not_found t, d) /\
  app (PUT t i u) d = (not_found t, d) /\
  app (DELETE_one t i) d = (not_found t, d) /\
  status (not_found t) = 404 /\
  (forall rec : dict,
     outcome (get_one t i) d <> Return rec /\
     outcome (update_one t i u) d <> Return rec /\
     outcome (delete_one t i) d <> Return rec).
Proof.
  intros Hi H. apply lookup_None_iff in H.
  split; [rewrite app_GET, Hi, H; reflexivity|].
  split; [rewrite (app_PUT_missing t i u d H), Hi; reflexivity|].
  split; [rewrite app_DELETE, Hi, H, delete_rows_missing by exact H;
          reflexivity|].
  split; [reflexivity|].
  intros rec. unfold outcome.
  rewrite (run_update_missing t i u d H), run_get_one, run_delete_one, Hi, H.
  repeat split; discriminate.
Qed.

Lemma missing_id_not_found_witness :
  in_range 2 = true /\
  (forall r, In r (rows (table_of polls one_poll)) -> row_id r <> Some 2) /\
  app (GET polls 2) one_poll = (not_found polls, one_poll) /\
  app (PUT polls 2 (PollUpdate.mk (Some "x"))) one_poll
    = (not_found polls, one_poll) /\
  app (DELETE_one polls 2) one_poll = (not_found polls, one_poll) /\
  status (not_found polls) = 404 /\
  (forall rec : dict,
     outcome (get_one polls 2) one_poll <> Return rec /\
     outcome (update_one polls 2 (PollUpdate.mk (Some "x"))) one_poll
       <> Return rec /\
     outcome (delete_one polls 2) one_poll <> Return rec).
Proof.
  assert (H : forall r, In r (rows (table_of polls one_poll)) ->
                        row_id r <> Some 2).
  { intros r [<-|[]]. simpl. discriminate. }
  split; [reflexivity|]. split; [exact H|].
  exact (missing_id_not_found polls 2 (PollUpdate.mk (Some "x")) one_poll
           eq_refl H).
Defined.

(** ** C5 *)




(** ** C6 *)

(** C6, as stated, fails.  On the id just above the 64-bit range, DELETE
    and then GET both answer 500, not 404. *)
Lemma delete_then_get_huge_id :
  fst (app (DELETE_poll beyond_int64) one_poll) = internal_server_error /\
  fst (app (GET_poll beyond_int64)
           (snd (app (DELETE_poll beyond_int64) one_poll)))
    = internal_server_error /\
  fst (app (GET_poll beyond_int64)
           (snd (app (DELETE_poll beyond_int64) one_poll)))
    <> not_found polls.
Proof. repeat split. discriminate. Qed.

Lemma deleted_rows_item (t : tname) (i : Z) (d : DB) (r : row) :
  in_range i = true ->
  In r (rows (table_of t (delete_rows t i d))) <->
  In r (rows (table_of t d)) /\ r@0 <> VInt i.
Proof.
  intros Hi. unfold delete_rows. rewrite table_of_set_table. simpl.
  rewrite filter_In. apply and_iff_compat_l.
  rewrite negb_true_iff. split.
  - intros Hn E. rewrite (proj2 (has_id_row_id i r)) in Hn; [discriminate|].
    apply row_id_of_item; assumption.
  - intros Hn. destruct (has_id i r) eqn:E; [|reflexivity].
    apply has_id_row_id in E. destruct (row_id_in_range r i E) as [_ E0].
    contradiction.
Qed.

(** C6, amended.  For every resource and every id in the signed 64-bit
    range, a GET of the id on the store that DELETE of the id leaves answers
    404.  The rows the DELETE leaves are exactly the rows whose id column
    is not the id, so no row of the table carries the id any more.  The
    DELETE itself answers 200 when a row carried the id and 404, changing
    nothing, when none did. *)
Theorem delete_then_get_not_found (t : tname) (i : Z) (d : DB) :
  in_range i = true ->
  fst (app (GET t i) (snd (app (DELETE_one t i) d))) = not_found t /\
  lookup t i (snd (app (DELETE_one t i) d)) = None /\
  (forall r, In r (rows (table_of t (snd (app (DELETE_one t i) d)))) <->
             In r (rows (table_of t d)) /\ r@0 <> VInt i) /\
  (forall r, In r (rows (table_of t d)) -> r@0 = VInt i ->
             fst (app (DELETE_one t i) d)
               = mkResponse 200
                   (JObject [("detail", VStr (deleted_message t))])) /\
  fst (app (DELETE_one t i) d)
    = match lookup t i d with
      | Some _ =>
          mkResponse 200 (JObject [("detail", VStr (deleted_message t))])
      | None => not_found t
      end /\
  match lookup t i d with
  | Some _ => True
  | None => snd (app (DELETE_one t i) d) = d
  end.
Proof.
  intros Hi. rewrite app_DELETE, Hi; simpl fst; simpl snd.
  rewrite app_GET, Hi, lookup_deleted. simpl fst.
  split; [reflexivity|]. split; [reflexivity|].
  split; [intros r; apply deleted_rows_item; exact Hi|].
  split; [|split; [reflexivity|]].
  - intros r Hin E. destruct (lookup t i d) eqn:H; [reflexivity|].
    exfalso. apply (proj1 (lookup_None_iff t i d) H r Hin).
    apply row_id_of_item; assumption.
  - destruct (lookup t i d) eqn:H; [exact I|].
    apply delete_rows_missing; exact H.
Qed.

Lemma delete_then_get_not_found_witness :
  in_range 1 = true /\
  fst (app (GET polls 1) (snd (app (DELETE_one polls 1) one_poll)))
    = not_found polls /\
  rows (table_of polls (snd (app (DELETE_one polls 1) one_poll))) = [].
Proof.
  split; [reflexivity|].
  split; [|reflexivity].
  exact (proj1 (delete_then_get_not_found polls 1 one_poll eq_refl)).
Defined.

(** ** C9 *)




(** ** Requests, case by case *)

(** A property of the five routes of every resource holds of every
    request. *)
Lemma request_cases (P : request -> Prop) :
  (forall t x, P (POST t x)) ->
  (forall t, P (GET_all t)) ->
  (forall t i, P (GET t i)) ->
  (forall t i u, P (PUT t i u)) ->
  (forall t i, P (DELETE_one t i)) ->
  forall rq, P rq.
Proof.
  intros Hpost Hall Hget Hput Hdel
    [x| |i|i u|i|x| |i|i u|i|x| |i|i u|i|x| |i|i u|i].
  - exact (Hpost polls x).
  - exact (Hall polls).
  - exact (Hget polls i).
  - exact (Hput polls i u).
  - exact (Hdel polls i).
  - exact (Hpost comments x).
  - exact (Hall comments).
  - exact (Hget comments i).
  - exact (Hput comments i u).
  - exact (Hdel comments i).
  - exact (Hpost teams x).
  - exact (Hall teams).
  - exact (Hget teams i).
  - exact (Hput teams i u).
  - exact (Hdel teams i).
  - exact (Hpost players x).
  - exact (Hall players).
  - exact (Hget players i).
  - exact (Hput players i u).
  - exact (Hdel players i).
Qed.


(** ** How a request changes the store *)

Lemma app_store_step (rq : request) (d : DB) : store_step d (snd (app rq d)).
Proof.
  revert rq. apply (request_cases (fun rq => store_step d (snd (app rq d)))).
  - intros t x. rewrite app_POST.
    destruct (fits (create_dict t x)) eqn:Hfit; [|apply step_none].
    destruct (has_room t d) eqn:Hroom; [|apply step_none].
    apply step_insert; assumption.
  - intros t. rewrite app_GET_all. apply step_none.
  - intros t i. rewrite app_GET. apply step_none.
  - intros t i u. destruct (lookup t i d) as [r|] eqn:H.
    + rewrite (app_PUT_found t i u d r H).
      destruct (fits (set_list t u r)) eqn:Hbind; [|apply step_none].
      apply step_update; assumption.
    + rewrite (app_PUT_missing t i u d H). apply step_none.
  - intros t i. rewrite app_DELETE.
    destruct (in_range i); [apply step_delete|apply step_none].
Qed.

Lemma tname_eq_dec (t t' : tname) : {t = t'} + {t <> t'}.
Proof. decide equality. Qed.


(** ** Columns an update does not assign *)

Lemma set_list_keys (t : tname) (u : UpdateModel t) (r : row) :
  keys (set_list t u r) = update_fields t.
Proof. destruct t; reflexivity. Qed.

(** The id column is in no SET list, so an updated row keeps its id. *)
Lemma update_row_id (t : tname) (u : UpdateModel t) (r r' : row) :
  row_id (update_row t (set_list t u r) r') = row_id r'.
Proof. destruct t; destruct r' as [|v r']; reflexivity. Qed.

Lemma update_row_has_id (t : tname) (u : UpdateModel t) (r r' : row) (j : Z) :
  has_id j (update_row t (set_list t u r) r') = has_id j r'.
Proof. unfold has_id. rewrite update_row_id. reflexivity. Qed.

(** A column whose name is not a field of the Update model keeps its value
    in an updated row. *)
Lemma update_row_frame (t : tname) (u : UpdateModel t) (r r' : row)
    (k : nat) (c : string) :
  nth_error (keys (schema t)) k = Some c ->
  ~ In c (update_fields t) ->
  (update_row t (set_list t u r) r')@k = r'@k.
Proof.
  intros Hk Hc.
  destruct t; simpl in Hk, Hc;
    repeat (destruct k as [|k]; simpl in Hk;
            [injection Hk as <-;
             try (exfalso; apply Hc; simpl; tauto);
             repeat (destruct r' as [|? r']; try reflexivity)|]);
    destruct k; discriminate Hk.
Qed.

Lemma matching_map (f : row -> row) (j : Z) (rs : list row) :
  (forall r, has_id j (f r) = has_id j r) ->
  filter (has_id j) (map f rs) = map f (filter (has_id j) rs).
Proof.
  intros Hf. induction rs as [|r rs IH]; simpl; [reflexivity|].
  rewrite Hf. destruct (has_id j r); simpl; rewrite IH; reflexivity.
Qed.

(** What one step does to the first row of an id in a table: it is gone,
    or it is the same row, or it is that row updated with the SET list of an
    Update handler. *)
Lemma store_step_lookup (d d' : DB) (t : tname) (j : Z) (r r' : row) :
  store_step d d' ->
  lookup t j d = Some r ->
  lookup t j d' = Some r' ->
  r' = r \/
  exists (u : UpdateModel t) (r0 : row), r' = update_row t (set_list t u r0) r.
Proof.
  intros Hstep Hr Hr'. destruct Hstep as [|t0 x Hfit Hroom|t0 i u r0 H0 Hbind|t0 i].
  - left. congruence.
  - left. destruct (tname_eq_dec t t0) as [->|Hne].
    + unfold lookup, matching, insert_row in Hr'.
      rewrite table_of_set_table in Hr'. simpl in Hr'.
      rewrite filter_app in Hr'. unfold lookup, matching in Hr.
      destruct (filter (has_id j) (rows (table_of t0 d))); simpl in *;
        congruence.
    + unfold lookup, matching, insert_row in Hr'.
      rewrite table_of_set_table_ne in Hr' by exact Hne.
      unfold lookup, matching in Hr. congruence.
  - destruct (tname_eq_dec t t0) as [->|Hne].
    + unfold lookup, matching, update_rows in Hr'.
      rewrite table_of_set_table in Hr'. simpl in Hr'.
      rewrite matching_map in Hr'.
      2:{ intros r1. destruct (has_id i r1); [|reflexivity].
          apply update_row_has_id. }
      unfold lookup, matching in Hr.
      destruct (filter (has_id j) (rows (table_of t0 d))) as [|r1 rs];
        simpl in *; [discriminate|].
      injection Hr as ->. injection Hr' as <-.
      destruct (has_id i r); [right; exists u, r0; reflexivity|left; reflexivity].
    + left. unfold lookup, matching, update_rows in Hr'.
      rewrite table_of_set_table_ne in Hr' by exact Hne.
      unfold lookup, matching in Hr. congruence.
  - left. destruct (tname_eq_dec t t0) as [->|Hne].
    + destruct (Z.eq_dec j i) as [->|Hji].
      * rewrite lookup_deleted in Hr'. discriminate.
      * unfold lookup, matching, delete_rows in Hr'.
        rewrite table_of_set_table in Hr'. simpl in Hr'.
        rewrite matching_other_deleted in Hr' by exact Hji.
        unfold lookup, matching in Hr. congruence.
    + unfold lookup, matching, delete_rows in Hr'.
      rewrite table_of_set_table_ne in Hr' by exact Hne.
      unfold lookup, matching in Hr. congruence.
Qed.

(** No request changes, in a row that exists before and after it, a column
    that the Update model of the table does not have: the id of every
    table, [likes] of a poll, [poll_id] of a comment. *)
Lemma column_frame (rq : request) (d : DB) (t : tname) (j : Z) (r r' : row)
    (k : nat) (c : string) :
  nth_error (keys (schema t)) k = Some c ->
  ~ In c (update_fields t) ->
  lookup t j d = Some r ->
  lookup t j (snd (app rq d)) = Some r' ->
  r'@k = r@k.
Proof.
  intros Hk Hc Hr Hr'.
  destruct (store_step_lookup d _ t j r r' (app_store_step rq d) Hr Hr')
    as [->|[u [r0 ->]]]; [reflexivity|].
  apply (update_row_frame t u r0 r k c Hk Hc).
Qed.


(** ** C4 *)

(** A step leaves every poll row with the [likes] some row had before, or
    with the default 0 of a created row. *)
Lemma store_step_likes (d d' : DB) (r' : row) :
  store_step d d' ->
  In r' (rows (polls_tbl d')) ->
  r'@2 = VInt 0 \/ exists r, In r (rows (polls_tbl d)) /\ r'@2 = r@2.
Proof.
  intros Hstep Hin. destruct Hstep as [|t x Hfit Hroom|t i u r0 H0 Hbind|t i].
  - right. exists r'. split; [exact Hin|reflexivity].
  - destruct t; try (right; exists r'; split; [exact Hin|reflexivity]).
    unfold insert_row in Hin. simpl in Hin. apply in_app_or in Hin.
    destruct Hin as [Hin|[<-|[]]].
    + right. exists r'. split; [exact Hin|reflexivity].
    + left. reflexivity.
  - destruct t; try (right; exists r'; split; [exact Hin|reflexivity]).
    unfold update_rows in Hin. simpl in Hin. apply in_map_iff in Hin.
    destruct Hin as [r [<- Hin]]. right. exists r. split; [exact Hin|].
    destruct (has_id i r); [|reflexivity].
    apply (update_row_frame polls u r0 r 2 "likes"); [reflexivity|].
    simpl. intros [H|[]]. discriminate H.
  - destruct t; try (right; exists r'; split; [exact Hin|reflexivity]).
    unfold delete_rows in Hin. simpl in Hin. apply filter_In in Hin.
    right. exists r'. split; [apply Hin|reflexivity].
Qed.

Lemma likes_zero_step (d d' : DB) :
  store_step d d' -> likes_zero d -> likes_zero d'.
Proof.
  intros Hstep Hd r' Hin.
  destruct (store_step_likes d d' r' Hstep Hin) as [H|[r [Hr ->]]];
    [exact H|apply Hd; exact Hr].
Qed.

Lemma serve_snoc (rqs : list request) (rq : request) (d : DB) :
  serve (rqs ++ [rq]) d = snd (app rq (serve rqs d)).
Proof. unfold serve. rewrite fold_left_app. reflexivity. Qed.

Lemma reachable_step (rq : request) (d : DB) :
  reachable d -> reachable (snd (app rq d)).
Proof.
  intros [rqs ->]. exists (rqs ++ [rq]). symmetry. apply serve_snoc.
Qed.

Lemma reachable_likes_zero (d : DB) : reachable d -> likes_zero d.
Proof.
  intros [rqs ->]. induction rqs as [|rq rqs IH] using rev_ind.
  - intros r [].
  - rewrite serve_snoc. eapply likes_zero_step; [apply app_store_step|exact IH].
Qed.

(** C4.  In every state the service reaches from a fresh database, every
    poll row has [likes] 0, and so has the [likes] of every record that a
    listing of the polls answers with.  Whatever request comes next, a poll
    that exists before and after it keeps its [likes], and every poll row
    after it still has [likes] 0.  A created poll gets its [likes] from the
    column default: the INSERT names only [question]; and no statement of
    [update_poll] assigns [likes]. *)
Theorem likes_never_change (d : DB) (rq : request) :
  reachable d ->
  likes_zero d /\
  (forall rec, In rec (listing polls d) -> assoc "likes" rec = Some (VInt 0)) /\
  (forall j r r',
     lookup polls j d = Some r ->
     lookup polls j (snd (app rq d)) = Some r' ->
     r'@2 = r@2) /\
  likes_zero (snd (app rq d)) /\
  (forall x : PollCreate.t,
     (created_row polls x d)@2 = VInt 0 /\
     statements (create_poll x) d
       = [INSERT polls ["question"] [VStr (PollCreate.question x)]]) /\
  (forall i u s,
     In s (statements (update_poll i u) d) -> ~ In "likes" (written s)).
Proof.
  intros Hd. pose proof (reachable_likes_zero d Hd) as Hz.
  split; [exact Hz|]. split; [|split; [|split; [|split]]].
  - intros rec Hin. unfold listing in Hin. rewrite app_GET_all in Hin.
    simpl in Hin. apply in_map_iff in Hin. destruct Hin as [r [<- Hin]].
    simpl. f_equal. apply Hz. exact Hin.
  - intros j r r' Hr Hr'.
    apply (column_frame rq d polls j r r' 2 "likes"); try assumption;
      [reflexivity|]. simpl. intros [H|[]]. discriminate H.
  - apply reachable_likes_zero, reachable_step, Hd.
  - intros x. split; [reflexivity|].
    exact (statements_create polls x d).
  - intros i u s Hin Hl. unfold statements in Hin.
    change (update_poll i u) with (update_one polls i u) in Hin.
    destruct (lookup polls i d) as [r|] eqn:H.
    + rewrite (run_update_found polls i u d r H) in Hin.
      destruct (fits (set_list polls u r)); cbn [snd executed] in Hin;
        (destruct Hin as [<-|[<-|[]]]; simpl in Hl; [exact Hl|]);
        destruct Hl as [Hl|[]]; discriminate Hl.
    + rewrite (run_update_missing polls i u d H) in Hin.
      cbn [snd executed] in Hin. destruct Hin as [<-|[]]. exact Hl.
Qed.

Lemma likes_never_change_witness :
  reachable one_poll /\
  likes_zero one_poll /\
  likes_zero (snd (app (PUT_poll 1 (PollUpdate.mk (Some "Best sport ever?")))
                       one_poll)).
Proof.
  assert (H : reachable one_poll).
  { exists [POST_polls (PollCreate.mk "Best sport?")]. reflexivity. }
  split; [exact H|].
  pose proof (likes_never_change one_poll
                (PUT_poll 1 (PollUpdate.mk (Some "Best sport ever?"))) H)
    as [H1 [_ [_ [H2 _]]]].
  split; [exact H1|exact H2].
Defined.

(** ** Well-formed stores *)

Lemma max_rowid_bound (rs : list row) (r : row) (j : Z) :
  In r rs -> row_id r = Some j -> j <= max_rowid rs.
Proof.
  induction rs as [|r0 rs IH]; simpl; [intros []|].
  intros [->|Hin] Hj.
  - rewrite Hj. lia.
  - specialize (IH Hin Hj). destruct (row_id r0); lia.
Qed.

Lemma max_rowid_nonneg (rs : list row) : 0 <= max_rowid rs.
Proof.
  induction rs as [|r rs IH]; simpl; [lia|]. destruct (row_id r); lia.
Qed.

Lemma next_rowid_in_range (t : tname) (d : DB) :
  has_room t d = true -> in_range (next_rowid (table_of t d)) = true.
Proof.
  unfold has_room. rewrite Z.leb_le. intros H. apply in_range_iff.
  split; [|exact H].
  pose proof (max_rowid_nonneg (rows (table_of t d))).
  unfold next_rowid, int64_min. lia.
Qed.

Lemma new_row_wf (t : tname) (i : Z) (cols : list string) (vals : list value) :
  in_range i = true ->
  wf_row t (new_row t i cols vals) /\ row_id (new_row t i cols vals) = Some i.
Proof.
  intros Hi.
  assert (H : row_id (new_row t i cols vals) = Some i).
  { destruct t; unfold new_row; simpl map; unfold row_id; rewrite Hi;
      reflexivity. }
  split; [split|exact H].
  - unfold new_row. apply length_map.
  - exists i. exact H.
Qed.

Lemma created_row_id (t : tname) (x : CreateModel t) (d : DB) :
  has_room t d = true ->
  row_id (created_row t x d) = Some (next_rowid (table_of t d)).
Proof. intros H. apply new_row_wf. apply next_rowid_in_range. exact H. Qed.

Lemma set_columns_length (cols : list string) (sets : list (string * value))
    (r : row) :
  length (set_columns cols sets r) = length r.
Proof.
  revert r. induction cols as [|c cols IH]; intros [|v r]; simpl;
    try reflexivity.
  rewrite IH. reflexivity.
Qed.

Lemma update_row_wf (t : tname) (u : UpdateModel t) (r0 r : row) :
  wf_row t r -> wf_row t (update_row t (set_list t u r0) r).
Proof.
  intros [Hlen Hid]. split.
  - unfold update_row. rewrite set_columns_length. exact Hlen.
  - rewrite update_row_id. exact Hid.
Qed.

(** Ids stay unique when rows are removed. *)
Lemma unique_ids_filter (keep : row -> bool) (rs : list row) :
  NoDup (map row_id rs) -> NoDup (map row_id (filter keep rs)).
Proof.
  intros Hnd. induction rs as [|r rs IH]; simpl; [constructor|].
  simpl in Hnd. apply NoDup_cons_iff in Hnd. destruct Hnd as [Hfresh Hnd].
  destruct (keep r); simpl; [|apply IH; exact Hnd].
  apply NoDup_cons; [|apply IH; exact Hnd].
  intros Hin. apply Hfresh. apply in_map_iff in Hin.
  destruct Hin as [r1 [E Hin]]. apply filter_In in Hin.
  apply in_map_iff. exists r1. split; [exact E|apply Hin].
Qed.

(** With unique ids, two rows of a table with the same id are one row. *)
Lemma unique_ids_same_row (rs : list row) (r1 r2 : row) :
  NoDup (map row_id rs) ->
  In r1 rs -> In r2 rs -> row_id r1 = row_id r2 -> r1 = r2.
Proof.
  intros Hnd. induction rs as [|r rs IH]; simpl; [intros []|].
  simpl in Hnd. apply NoDup_cons_iff in Hnd. destruct Hnd as [Hfresh Hnd].
  intros [->|H1] [->|H2] E.
  - reflexivity.
  - exfalso. apply Hfresh. rewrite E. apply in_map. exact H2.
  - exfalso. apply Hfresh. rewrite <- E. apply in_map. exact H1.
  - apply IH; assumption.
Qed.

Lemma NoDup_snoc {A : Type} (l : list A) (a : A) :
  NoDup l -> ~ In a l -> NoDup (l ++ [a]).
Proof.
  intros Hl Ha. pose proof (Add_app a l []) as Hadd.
  rewrite app_nil_r in Hadd. apply (NoDup_Add Hadd). split; assumption.
Qed.

Lemma wf_db_init : wf_db init_db.
Proof. intros t. destruct t; split; constructor. Qed.

Lemma wf_db_step (d d' : DB) : store_step d d' -> wf_db d -> wf_db d'.
Proof.
  intros Hstep Hd t. destruct Hstep as [|t0 x Hfit Hroom|t0 i u r0 H0 Hbind|t0 i].
  - apply Hd.
  - destruct (tname_eq_dec t t0) as [->|Hne].
    2:{ unfold insert_row. rewrite table_of_set_table_ne by exact Hne.
        apply Hd. }
    unfold insert_row. rewrite table_of_set_table.
    destruct (Hd t0) as [Hrows Hnd].
    destruct (new_row_wf t0 (next_rowid (table_of t0 d)) (create_fields t0)
                (map snd (create_dict t0 x))
                (next_rowid_in_range t0 d Hroom)) as [Hwf Hid].
    split; simpl.
    + apply Forall_app. split; [exact Hrows|].
      constructor; [exact Hwf|constructor].
    + rewrite map_app. simpl. unfold created_row. rewrite Hid.
      apply NoDup_snoc; [exact Hnd|].
      intros Hin. apply in_map_iff in Hin. destruct Hin as [r [Hr Hin]].
      pose proof (max_rowid_bound _ r _ Hin Hr) as Hb.
      unfold next_rowid in Hb. lia.
  - destruct (tname_eq_dec t t0) as [->|Hne].
    2:{ unfold update_rows. rewrite table_of_set_table_ne by exact Hne.
        apply Hd. }
    unfold update_rows. rewrite table_of_set_table.
    destruct (Hd t0) as [Hrows Hnd]. split; simpl.
    + apply Forall_map. revert Hrows. apply Forall_impl. intros r Hr.
      destruct (has_id i r); [apply update_row_wf|]; exact Hr.
    + rewrite map_map. erewrite map_ext; [exact Hnd|].
      intros r. simpl. destruct (has_id i r); [|reflexivity].
      apply update_row_id.
  - destruct (tname_eq_dec t t0) as [->|Hne].
    2:{ unfold delete_rows. rewrite table_of_set_table_ne by exact Hne.
        apply Hd. }
    unfold delete_rows. rewrite table_of_set_table.
    destruct (Hd t0) as [Hrows Hnd]. split; simpl.
    + rewrite Forall_forall in Hrows |- *. intros r Hin.
      apply filter_In in Hin. apply Hrows, Hin.
    + apply unique_ids_filter. exact Hnd.
Qed.

Lemma reachable_wf (d : DB) : reachable d -> wf_db d.
Proof.
  intros [rqs ->]. induction rqs as [|rq rqs IH] using rev_ind.
  - apply wf_db_init.
  - rewrite serve_snoc. eapply wf_db_step; [apply app_store_step|exact IH].
Qed.

(** ** Typed stores *)

Arguments in_range : simpl never.

Ltac invert_typed :=
  repeat match goal with
         | H : Forall2 storable (_ :: _) _ |- _ =>
             inversion H; subst; clear H
         | H : Forall2 storable [] _ |- _ => inversion H; subst; clear H
         end.

Ltac storable_values :=
  repeat match goal with
         | H : storable INTEGER ?v |- _ =>
             destruct v; simpl in H; try contradiction; revert H
         | H : storable TEXT ?v |- _ =>
             destruct v; simpl in H; try contradiction; clear H
         end; intros.

Ltac split_andb :=
  repeat match goal with
         | H : _ && _ = true |- _ => apply andb_true_iff in H; destruct H
         end.

Lemma created_row_typed (t : tname) (x : CreateModel t) (d : DB) :
  fits (create_dict t x) = true ->
  has_room t d = true ->
  Forall2 storable (column_types t) (created_row t x d).
Proof.
  intros Hfit Hroom. pose proof (next_rowid_in_range t d Hroom) as Hid.
  destruct t; destruct x; unfold fits in Hfit; simpl in Hfit; split_andb;
    repeat constructor; assumption.
Qed.

Lemma typed_length (t : tname) (r : row) :
  Forall2 storable (column_types t) r -> length r = length (schema t).
Proof.
  intros H. apply Forall2_length in H. rewrite <- H. destruct t; reflexivity.
Qed.

(** On a typed row, the SET list of an update binds when the integers of the
    partial are in range, and the updated row is typed. *)
Lemma set_list_fits (t : tname) (u : UpdateModel t) (r : row) :
  Forall2 storable (column_types t) r ->
  fits (set_list t u r) = fits (update_dict t u).
Proof.
  intros H. destruct t; simpl in H; invert_typed; storable_values.
  - destruct u as [[uq|]]; reflexivity.
  - destruct u as [[uc|]]; reflexivity.
  - destruct u as [[ua|] [ub|] [uk|]]; unfold fits; simpl;
      repeat match goal with H : in_range _ = true |- _ => rewrite H end;
      simpl; rewrite ?andb_true_r; reflexivity.
  - destruct u as [[ua|] [uj|] [ub|] [uk|]]; unfold fits; simpl;
      repeat match goal with H : in_range _ = true |- _ => rewrite H end;
      simpl; rewrite ?andb_true_r; reflexivity.
Qed.

Lemma update_row_typed (t : tname) (u : UpdateModel t) (r0 r1 : row) :
  Forall2 storable (column_types t) r0 ->
  Forall2 storable (column_types t) r1 ->
  fits (set_list t u r0) = true ->
  Forall2 storable (column_types t) (update_row t (set_list t u r0) r1).
Proof.
  intros H0 H1 Hfit. rewrite (set_list_fits t u r0 H0) in Hfit.
  destruct t; simpl in H0, H1; invert_typed; storable_values.
  - destruct u as [[uq|]]; repeat constructor; assumption.
  - destruct u as [[uc|]]; repeat constructor; assumption.
  - destruct u as [[ua|] [ub|] [uk|]]; unfold fits in Hfit; simpl in Hfit;
      split_andb; repeat constructor; assumption.
  - destruct u as [[ua|] [uj|] [ub|] [uk|]]; unfold fits in Hfit;
      simpl in Hfit; split_andb; repeat constructor; assumption.
Qed.

Lemma typed_step (d d' : DB) : store_step d d' -> typed d -> typed d'.
Proof.
  intros Hstep Hd t r Hin.
  destruct Hstep as [|t0 x Hfit Hroom|t0 i u r0 H0 Hbind|t0 i].
  - apply (Hd t r Hin).
  - destruct (tname_eq_dec t t0) as [->|Hne].
    + unfold insert_row in Hin. rewrite table_of_set_table in Hin.
      simpl in Hin. apply in_app_or in Hin. destruct Hin as [Hin|[<-|[]]].
      * apply (Hd t0 r Hin).
      * apply created_row_typed; assumption.
    + unfold insert_row in Hin.
      rewrite table_of_set_table_ne in Hin by exact Hne. apply (Hd t r Hin).
  - destruct (tname_eq_dec t t0) as [->|Hne].
    + unfold update_rows in Hin. rewrite table_of_set_table in Hin.
      simpl in Hin. apply in_map_iff in Hin. destruct Hin as [r1 [<- Hin]].
      destruct (has_id i r1); [|apply (Hd t0 r1 Hin)].
      destruct (lookup_Some_in t0 i d r0 H0) as [Hin0 _].
      apply update_row_typed; [apply (Hd t0 r0 Hin0)|apply (Hd t0 r1 Hin)|].
      exact Hbind.
    + unfold update_rows in Hin.
      rewrite table_of_set_table_ne in Hin by exact Hne. apply (Hd t r Hin).
  - destruct (tname_eq_dec t t0) as [->|Hne].
    + unfold delete_rows in Hin. rewrite table_of_set_table in Hin.
      simpl in Hin. apply filter_In in Hin. apply (Hd t0 r (proj1 Hin)).
    + unfold delete_rows in Hin.
      rewrite table_of_set_table_ne in Hin by exact Hne. apply (Hd t r Hin).
Qed.

Lemma reachable_typed (d : DB) : reachable d -> typed d.
Proof.
  intros [rqs ->]. induction rqs as [|rq rqs IH] using rev_ind.
  - intros t r Hin. destruct t; destruct Hin.
  - rewrite serve_snoc. eapply typed_step; [apply app_store_step|exact IH].
Qed.

(** On a typed row, the record an Update handler returns validates against
    the Update model, and what is sent is the SET list. *)
Lemma returned_validates (t : tname) (i : Z) (u : UpdateModel t) (r : row) :
  Forall2 storable (column_types t) r ->
  response_model (update_declared t) true (returned t i u r)
    = Some (set_list t u r).
Proof.
  intros H. destruct t; simpl in H; invert_typed; storable_values.
  - destruct u as [[uq|]]; reflexivity.
  - destruct u as [[uc|]]; reflexivity.
  - destruct u as [[ua|] [ub|] [uk|]]; reflexivity.
  - destruct u as [[ua|] [uj|] [ub|] [uk|]]; reflexivity.
Qed.

(** ** The handlers against the merge rule *)



Ltac full_row r :=
  repeat (destruct r as [|? r]; try discriminate).

(** On a row of the table, the UPDATE of a handler stores the merged row. *)
Lemma update_row_merged (t : tname) (u : UpdateModel t) (r : row) :
  length r = length (schema t) ->
  update_row t (set_list t u r) r = merged t u r.
Proof. intros H. destruct t; simpl in H; full_row r; reflexivity. Qed.

Lemma merged_id (t : tname) (i : Z) (u : UpdateModel t) (r : row) :
  row_id r = Some i -> VInt i :: tl (merged t u r) = merged t u r.
Proof.
  intros H. destruct (row_id_in_range r i H) as [_ E].
  destruct r as [|v r]; unfold item in E; simpl in E; [discriminate|].
  subst v. destruct t; reflexivity.
Qed.

Lemma matching_map_other (f : row -> row) (i j : Z) (rs : list row) :
  j <> i ->
  (forall r, has_id i r = true -> row_id (f r) = row_id r) ->
  filter (has_id j) (map (fun r => if has_id i r then f r else r) rs)
    = filter (has_id j) rs.
Proof.
  intros Hne Hf. induction rs as [|r rs IH]; simpl; [reflexivity|].
  destruct (has_id i r) eqn:Hi; [|rewrite IH; reflexivity].
  assert (Hj : has_id j r = false).
  { apply has_id_row_id in Hi. unfold has_id. rewrite Hi.
    apply Z.eqb_neq. congruence. }
  assert (Hj' : has_id j (f r) = false).
  { unfold has_id. rewrite (Hf r Hi). exact Hj. }
  rewrite Hj, Hj'. exact IH.
Qed.

(** Store part of UpdateOne: on a well-formed store, when the SET list
    binds, the handler returns
    the record of the merged row and that row is what the id holds
    afterwards; rows of other ids and other tables are as before. *)
Lemma update_stores_merged (t : tname) (i : Z) (u : UpdateModel t) (d : DB)
    (r : row) :
  wf_db d ->
  lookup t i d = Some r ->
  fits (set_list t u r) = true ->
  outcome (update_one t i u) d = Return (record t (merged t u r)) /\
  lookup t i (after (update_one t i u) d) = Some (merged t u r) /\
  (forall j, j <> i ->
     lookup t j (after (update_one t i u) d) = lookup t j d) /\
  (forall t', t' <> t ->
     table_of t' (after (update_one t i u) d) = table_of t' d).
Proof.
  intros Hwf Hr Hfit. unfold outcome, after.
  rewrite (run_update_found t i u d r Hr), Hfit.
  simpl fst; simpl snd; simpl store.
  destruct (lookup_Some_in t i d r Hr) as [Hin Hid].
  assert (Hlen : length r = length (schema t)).
  { destruct (Hwf t) as [Hrows _]. rewrite Forall_forall in Hrows.
    apply (Hrows r Hin). }
  unfold returned. rewrite (merged_id t i u r Hid).
  split; [reflexivity|]. split; [|split].
  - unfold lookup, matching, update_rows. rewrite table_of_set_table. simpl.
    rewrite matching_map.
    2:{ intros r1. destruct (has_id i r1) eqn:E; [|exact E].
        rewrite update_row_has_id. exact E. }
    unfold lookup, matching in Hr.
    destruct (filter (has_id i) (rows (table_of t d))) as [|r1 rs];
      simpl in *; [discriminate|]. injection Hr as ->.
    apply has_id_row_id in Hid. rewrite Hid.
    rewrite (update_row_merged t u r Hlen). reflexivity.
  - intros j Hj. unfold lookup, matching, update_rows.
    rewrite table_of_set_table. simpl.
    rewrite matching_map_other; [reflexivity|exact Hj|].
    intros r1 _. apply update_row_id.
  - intros t' Hne. unfold update_rows.
    apply table_of_set_table_ne. exact Hne.
Qed.

Lemma merged_unset (t : tname) (u : UpdateModel t) (r : row) :
  unset t u -> length r = length (schema t) -> merged t u r = r.
Proof.
  intros Hu Hlen.
  assert (Hs : forall c, supplied (update_dict t u) c = VNone).
  { intros c. unfold supplied.
    destruct (assoc c (update_dict t u)) as [v|] eqn:E; [|reflexivity].
    apply (Hu c). clear Hu. induction (update_dict t u) as [|[k' v'] l IH];
      simpl in E; [discriminate|].
    destruct (String.eqb_spec k' c) as [->|_].
    - injection E as ->. left. reflexivity.
    - right. apply IH. exact E. }
  unfold merged.
  assert (G : forall cols k0 (r0 : row),
             merge_from cols k0 (update_dict t u) r0
               = map (fun k => r0@k) (List.seq k0 (length cols))).
  { induction cols as [|c cols IH]; intros k0 r0; simpl; [reflexivity|].
    rewrite Hs, IH. reflexivity. }
  rewrite G. unfold keys. rewrite length_map, <- Hlen.
  clear. unfold item.
  induction r as [|v r IH]; simpl; [reflexivity|].
  rewrite <- seq_shift, map_map. simpl. rewrite IH. reflexivity.
Qed.

(** Rewriting the one row of an id with itself leaves the store as it is. *)
Lemma update_rows_same (t : tname) (sets : list (string * value)) (i : Z)
    (d : DB) (r : row) :
  wf_db d ->
  lookup t i d = Some r ->
  update_row t sets r = r ->
  update_rows t sets i d = d.
Proof.
  intros Hwf Hr Hsame. destruct (lookup_Some_in t i d r Hr) as [Hin Hid].
  destruct (Hwf t) as [_ Hnd].
  assert (E : map (fun r1 => if has_id i r1 then update_row t sets r1 else r1)
                  (rows (table_of t d)) = rows (table_of t d)).
  { rewrite <- (map_id (rows (table_of t d))) at 2.
    apply map_ext_in. intros r1 Hin1.
    destruct (has_id i r1) eqn:H1; [|reflexivity].
    apply has_id_row_id in H1.
    assert (r1 = r) as ->.
    { apply (unique_ids_same_row (rows (table_of t d))); try assumption.
      congruence. }
    exact Hsame. }
  unfold update_rows. rewrite E, table_eta. apply set_table_table_of.
Qed.

Lemma unset_fits (t : tname) (u : UpdateModel t) :
  unset t u -> fits (update_dict t u) = true.
Proof.
  intros Hu. unfold fits. apply forallb_forall. intros v Hin.
  apply in_map_iff in Hin. destruct Hin as [[k v'] [<- Hin]].
  rewrite (Hu k v' Hin). reflexivity.
Qed.

(** Store part of UpdateOne with an empty partial on a well-formed, typed
    store: the handler returns the record of the stored row and the store is
    unchanged. *)
Lemma update_unset_same (t : tname) (i : Z) (u : UpdateModel t) (d : DB)
    (r : row) :
  wf_db d ->
  typed d ->
  lookup t i d = Some r ->
  unset t u ->
  fits (set_list t u r) = true /\
  outcome (update_one t i u) d = Return (record t r) /\
  after (update_one t i u) d = d.
Proof.
  intros Hwf Hty Hr Hu.
  destruct (lookup_Some_in t i d r Hr) as [Hin _].
  assert (Hfit : fits (set_list t u r) = true).
  { rewrite (set_list_fits t u r (Hty t r Hin)). apply unset_fits, Hu. }
  destruct (update_stores_merged t i u d r Hwf Hr Hfit) as [Hout _].
  assert (Hlen : length r = length (schema t))
    by (apply typed_length, (Hty t r Hin)).
  rewrite (merged_unset t u r Hu Hlen) in Hout.
  split; [exact Hfit|]. split; [exact Hout|].
  unfold after. rewrite (run_update_found t i u d r Hr), Hfit. simpl.
  apply (update_rows_same t _ i d r Hwf Hr).
  rewrite (update_row_merged t u r Hlen). apply merged_unset; assumption.
Qed.


(** ** C8 *)

(** C8, as stated, fails for a poll: the UPDATE of [update_poll] assigns
    [question] alone and leaves [likes] unwritten. *)
Lemma update_poll_not_full_row :
  ~ rewrites_full_row polls 1 (PollUpdate.mk (Some "Best sport ever?")) one_poll.
Proof.
  intros [s [Hin Hall]].
  assert (Hl : In "likes" (written s)).
  { apply Hall; [simpl; tauto|discriminate]. }
  simpl in Hin. destruct Hin as [<-|[<-|[]]]; simpl in Hl.
  - exact Hl.
  - destruct Hl as [Hl|[]]. discriminate Hl.
Qed.

(** C8, amended.  For every resource and every id with a row, UpdateOne
    executes the SELECT and then one UPDATE whose SET list names every field
    of the Update model, whatever the partial supplies; each is assigned the
    supplied value when it is not null and the fetched value of its column
    otherwise.  The Update model has every column but the id for a team and
    a player, only [question] for a poll and only [content] for a comment. *)
Theorem update_writes_model_fields (t : tname) (i : Z) (u : UpdateModel t)
    (d : DB) (r : row) :
  lookup t i d = Some r ->
  statements (update_one t i u) d
    = [SELECT_WHERE_ID t i; UPDATE t (set_list t u r) i] /\
  keys (set_list t u r) = update_fields t /\
  (forall c v, In (c, v) (set_list t u r) ->
     exists k, nth_error (keys (schema t)) k = Some c /\
               v = merge_value (supplied (update_dict t u) c) r@k) /\
  ~ In "id" (update_fields t) /\
  update_fields polls = ["question"] /\
  update_fields comments = ["content"] /\
  update_fields teams = ["team_name"; "city"; "championships"] /\
  update_fields players = ["name"; "jersey_number"; "position"; "team_id"].
Proof.
  intros H. split.
  { unfold statements. rewrite (run_update_found t i u d r H).
    destruct (fits (set_list t u r)); reflexivity. }
  split; [apply set_list_keys|]. split.
  { intros c v Hin. destruct t; simpl in Hin;
      repeat (destruct Hin as [Hin|Hin];
              [injection Hin as <- <-;
               first [ exists 1%nat; split; reflexivity
                     | exists 2%nat; split; reflexivity
                     | exists 3%nat; split; reflexivity
                     | exists 4%nat; split; reflexivity ]|]);
      contradiction. }
  split; [|repeat split].
  destruct t; simpl; intros Hin;
    repeat (destruct Hin as [Hin|Hin]; [discriminate Hin|]); exact Hin.
Qed.

Lemma update_writes_model_fields_witness :
  lookup polls 1 one_poll = Some [VInt 1; VStr "Best sport?"; VInt 0] /\
  statements (update_one polls 1 (PollUpdate.mk None)) one_poll
    = [SELECT_WHERE_ID polls 1;
       UPDATE polls [("question", VStr "Best sport?")] 1].
Proof.
  assert (H : lookup polls 1 one_poll
              = Some [VInt 1; VStr "Best sport?"; VInt 0]) by reflexivity.
  split; [exact H|].
  exact (proj1 (update_writes_model_fields polls 1 (PollUpdate.mk None)
                  one_poll _ H)).
Defined.


(** ** C2, C7, C10: what the PUT routes send

    The Update handlers return the full merged record, but their routes
    declare [response_model=XUpdate]: the response carries the fields of the
    Update model only.  The store is updated as the merge rule says
    ([update_stores_merged], [update_unset_same], [column_frame]). *)

(** C2.  On the store holding poll 1 "Best sport?", PUT /polls/1 with
    question "Best sport ever?": [update_poll] returns the record with [id],
    the new [question] and [likes], and the row is stored merged, but the
    response of the route is the object with [question] alone; [id] and
    [likes] are not in it. *)
Theorem put_poll_sends_question_only :
  outcome (update_poll 1 (PollUpdate.mk (Some "Best sport ever?"))) one_poll
    = Return [("id", VInt 1); ("question", VStr "Best sport ever?");
              ("likes", VInt 0)] /\
  lookup polls 1
    (after (update_poll 1 (PollUpdate.mk (Some "Best sport ever?"))) one_poll)
    = Some [VInt 1; VStr "Best sport ever?"; VInt 0] /\
  fst (app (PUT_poll 1 (PollUpdate.mk (Some "Best sport ever?"))) one_poll)
    = mkResponse 200 (JObject [("question", VStr "Best sport ever?")]).
Proof. repeat split. Qed.

(** C7.  On the store holding team 1, PUT /teams/1 with every field unset:
    the store is unchanged and [update_team] returns the record that GET
    /teams/1 answers with, but the response of the PUT route is that record
    without its [id]. *)
Theorem put_team_unset_sends_no_id :
  after (update_team 1 (TeamUpdate.mk None None None)) one_team = one_team /\
  outcome (update_team 1 (TeamUpdate.mk None None None)) one_team
    = Return [("id", VInt 1); ("team_name", VStr "Lakers");
              ("city", VStr "Los Angeles"); ("championships", VInt 17)] /\
  fst (app (GET_team 1) one_team)
    = mkResponse 200
        (JObject [("id", VInt 1); ("team_name", VStr "Lakers");
                  ("city", VStr "Los Angeles"); ("championships", VInt 17)]) /\
  fst (app (PUT_team 1 (TeamUpdate.mk None None None)) one_team)
    = mkResponse 200
        (JObject [("team_name", VStr "Lakers"); ("city", VStr "Los Angeles");
                  ("championships", VInt 17)]).
Proof. repeat split. Qed.

(** C10.  On the store holding comment 1 with [poll_id] 999, PUT
    /comments/1 with content "edited": the stored [poll_id] stays 999 and
    [update_comment] returns it, but the response of the route is the object
    with [content] alone; the prior [poll_id] is not in it. *)
Theorem put_comment_sends_no_poll_id :
  lookup comments 1
    (after (update_comment 1 (CommentUpdate.mk (Some "edited"))) one_comment)
    = Some [VInt 1; VInt 999; VStr "edited"] /\
  outcome (update_comment 1 (CommentUpdate.mk (Some "edited"))) one_comment
    = Return [("id", VInt 1); ("poll_id", VInt 999);
              ("content", VStr "edited")] /\
  fst (app (PUT_comment 1 (CommentUpdate.mk (Some "edited"))) one_comment)
    = mkResponse 200 (JObject [("content", VStr "edited")]) /\
  assoc "poll_id"
    (sent (app (PUT_comment 1 (CommentUpdate.mk (Some "edited"))) one_comment))
    = None.
Proof. repeat split. Qed.


(** * Further properties of the handlers *)

(** ** Create, then read by the new id *)





(** ** One table per request *)

Lemma app_sets_own_table (rq : request) (d : DB) :
  exists tb, snd (app rq d) = set_table (request_table rq) tb d.
Proof.
  assert (Hsame : forall t, exists tb, d = set_table t tb d).
  { intros t. exists (table_of t d). symmetry. apply set_table_table_of. }
  revert rq.
  apply (request_cases (fun rq =>
    exists tb, snd (app rq d) = set_table (request_table rq) tb d)).
  - intros t x. rewrite app_POST.
    replace (request_table (POST t x)) with t by (destruct t; reflexivity).
    destruct (fits (create_dict t x) && has_room t d).
    + eexists. reflexivity.
    + apply Hsame.
  - intros t. rewrite app_GET_all.
    replace (request_table (GET_all t)) with t by (destruct t; reflexivity).
    apply Hsame.
  - intros t i. rewrite app_GET.
    replace (request_table (GET t i)) with t by (destruct t; reflexivity).
    apply Hsame.
  - intros t i u.
    replace (request_table (PUT t i u)) with t by (destruct t; reflexivity).
    destruct (lookup t i d) as [r|] eqn:H.
    + rewrite (app_PUT_found t i u d r H).
      destruct (fits (set_list t u r)); [eexists; reflexivity|apply Hsame].
    + rewrite (app_PUT_missing t i u d H). apply Hsame.
  - intros t i. rewrite app_DELETE.
    replace (request_table (DELETE_one t i)) with t
      by (destruct t; reflexivity).
    destruct (in_range i); [eexists; reflexivity|apply Hsame].
Qed.

(** X2.  A request changes no table but the one of its resource.  So there
    is no cascade: deleting a poll leaves every comment in place, also those
    whose [poll_id] is the deleted id, and deleting a team leaves every
    player. *)
Theorem request_changes_own_table_only (rq : request) (d : DB) :
  (forall t, t <> request_table rq ->
     table_of t (snd (app rq d)) = table_of t d) /\
  (forall i, comments_tbl (snd (app (DELETE_poll i) d)) = comments_tbl d) /\
  (forall i, players_tbl (snd (app (DELETE_team i) d)) = players_tbl d).
Proof.
  assert (G : forall rq' t, t <> request_table rq' ->
                table_of t (snd (app rq' d)) = table_of t d).
  { intros rq' t Hne. destruct (app_sets_own_table rq' d) as [tb ->].
    apply table_of_set_table_ne. exact Hne. }
  split; [apply G|].
  split; intros i.
  - apply (G (DELETE_poll i) comments). discriminate.
  - apply (G (DELETE_team i) players). discriminate.
Qed.

(** ** Errors *)

(** X3.  In a state the service has reached, a request answered with
    anything but 200 leaves the store exactly as it was; the answer is the
    404 of a missing id or the 500 of an exception of [cursor.execute] (an
    integer outside the signed 64-bit range, a table with no id left). *)
Theorem error_leaves_store (rq : request) (d : DB) :
  reachable d ->
  status (fst (app rq d)) <> 200 ->
  snd (app rq d) = d /\
  (fst (app rq d) = not_found (request_table rq) \/
   fst (app rq d) = internal_server_error).
Proof.
  intros Hd. pose proof (reachable_typed d Hd) as Hty. revert rq.
  apply (request_cases (fun rq =>
    status (fst (app rq d)) <> 200 ->
    snd (app rq d) = d /\
    (fst (app rq d) = not_found (request_table rq) \/
     fst (app rq d) = internal_server_error))).
  - intros t x. rewrite app_POST.
    destruct (fits (create_dict t x) && has_room t d); simpl; intros H.
    + contradiction H. reflexivity.
    + split; [reflexivity|right; reflexivity].
  - intros t. rewrite app_GET_all. simpl. intros H. contradiction H.
    reflexivity.
  - intros t i. rewrite app_GET. simpl.
    destruct (in_range i); [|split; [reflexivity|right; reflexivity]].
    destruct (lookup t i d); simpl; intros H.
    + contradiction H. reflexivity.
    + split; [reflexivity|left; destruct t; reflexivity].
  - intros t i u. destruct (lookup t i d) as [r|] eqn:E.
    + rewrite (app_PUT_found t i u d r E).
      destruct (fits (set_list t u r));
        [|split; [reflexivity|right; reflexivity]].
      unfold validated.
      rewrite (returned_validates t i u r
                 (Hty t r (proj1 (lookup_Some_in t i d r E)))).
      simpl. intros H. contradiction H. reflexivity.
    + rewrite (app_PUT_missing t i u d E). intros _.
      split; [reflexivity|].
      destruct (in_range i); [left; destruct t; reflexivity|right; reflexivity].
  - intros t i. rewrite app_DELETE.
    destruct (in_range i); [|split; [reflexivity|right; reflexivity]].
    simpl. destruct (lookup t i d) eqn:E; simpl; intros H.
    + contradiction H. reflexivity.
    + rewrite (delete_rows_missing t i d E).
      split; [reflexivity|left; destruct t; reflexivity].
Qed.

Lemma error_leaves_store_witness :
  reachable one_poll /\
  status (fst (app (DELETE_poll beyond_int64) one_poll)) <> 200 /\
  snd (app (DELETE_poll beyond_int64) one_poll) = one_poll.
Proof.
  assert (Hd : reachable one_poll).
  { exists [POST_polls (PollCreate.mk "Best sport?")]. reflexivity. }
  assert (H : status (fst (app (DELETE_poll beyond_int64) one_poll)) <> 200)
    by (simpl; discriminate).
  split; [exact Hd|]. split; [exact H|].
  exact (proj1 (error_leaves_store (DELETE_poll beyond_int64) one_poll Hd H)).
Defined.

(** ** Statements *)




Lemma statements_update_one (t : tname) (i : Z) (u : UpdateModel t) (d : DB) :
  statements (update_one t i u) d
    = match lookup t i d with
      | Some r => [SELECT_WHERE_ID t i; UPDATE t (set_list t u r) i]
      | None => [SELECT_WHERE_ID t i]
      end.
Proof.
  unfold statements. destruct (lookup t i d) as [r|] eqn:E.
  - rewrite (run_update_found t i u d r E).
    destruct (fits (set_list t u r)); reflexivity.
  - rewrite (run_update_missing t i u d E). reflexivity.
Qed.




Lemma request_statements_PUT (t : tname) (i : Z) (u : UpdateModel t) (d : DB) :
  request_statements (PUT t i u) d = statements (update_one t i u) d.
Proof. destruct t; reflexivity. Qed.



(** ** Delete, twice *)

(** X5.  A second DELETE of the same id never answers 200 and changes
    nothing, whatever the first one did: it answers 404 when the id is in
    the signed 64-bit range and 500 otherwise. *)
Theorem delete_twice (t : tname) (i : Z) (d : DB) :
  app (DELETE_one t i) (snd (app (DELETE_one t i) d))
    = (if in_range i then not_found t else internal_server_error,
       snd (app (DELETE_one t i) d)).
Proof.
  rewrite (app_DELETE t i d). destruct (in_range i) eqn:Hi; simpl snd.
  - rewrite app_DELETE, Hi, lookup_deleted.
    rewrite (delete_rows_missing t i _ (lookup_deleted t i d)). reflexivity.
  - rewrite app_DELETE, Hi. reflexivity.
Qed.

(** ** Update keeps the ids *)

(** X6.  An Update never adds, removes or renumbers a row: after a PUT the
    ids of every table, in order, are what they were, and so is the number
    of records of every listing. *)
Theorem update_keeps_ids (t : tname) (i : Z) (u : UpdateModel t) (d : DB)
    (t' : tname) :
  ids t' (snd (app (PUT t i u) d)) = ids t' d /\
  length (listing t' (snd (app (PUT t i u) d))) = length (listing t' d).
Proof.
  assert (H : ids t' (snd (app (PUT t i u) d)) = ids t' d).
  { destruct (lookup t i d) as [r|] eqn:E.
    - rewrite (app_PUT_found t i u d r E).
      destruct (fits (set_list t u r)); [|reflexivity].
      simpl snd. unfold ids, update_rows.
      destruct (tname_eq_dec t' t) as [->|Hne].
      + rewrite table_of_set_table. simpl. rewrite map_map.
        apply map_ext. intros r1. destruct (has_id i r1); [|reflexivity].
        apply update_row_id.
      + rewrite table_of_set_table_ne by exact Hne. reflexivity.
    - rewrite (app_PUT_missing t i u d E). reflexivity. }
  split; [exact H|].
  unfold listing. rewrite !app_GET_all. simpl. rewrite !length_map.
  unfold ids in H. apply (f_equal (@length _)) in H.
  rewrite !length_map in H. exact H.
Qed.

(** ** Ids are handed out once *)

Lemma seq_step (d d' : DB) (t : tname) :
  store_step d d' -> seq (table_of t d) <= seq (table_of t d').
Proof.
  intros [|t0 x Hfit Hroom|t0 i u r0 H0 Hbind|t0 i]; try lia.
  - unfold insert_row. destruct (tname_eq_dec t t0) as [->|Hne].
    + rewrite table_of_set_table. simpl. unfold next_rowid. lia.
    + rewrite table_of_set_table_ne by exact Hne. lia.
  - unfold update_rows. destruct (tname_eq_dec t t0) as [->|Hne].
    + rewrite table_of_set_table. simpl. lia.
    + rewrite table_of_set_table_ne by exact Hne. lia.
  - unfold delete_rows. destruct (tname_eq_dec t t0) as [->|Hne].
    + rewrite table_of_set_table. simpl. lia.
    + rewrite table_of_set_table_ne by exact Hne. lia.
Qed.

Lemma ids_bounded_step (d d' : DB) :
  store_step d d' -> ids_bounded d -> ids_bounded d'.
Proof.
  intros Hstep Hd t r j Hin Hj.
  pose proof (seq_step d d' t Hstep) as Hseq.
  destruct Hstep as [|t0 x Hfit Hroom|t0 i u r0 H0 Hbind|t0 i].
  - apply (Hd t r j Hin Hj).
  - destruct (tname_eq_dec t t0) as [->|Hne].
    + unfold insert_row in Hin |- *. rewrite table_of_set_table in Hin |- *.
      simpl in Hin |- *. apply in_app_or in Hin.
      destruct Hin as [Hin|[<-|[]]].
      * pose proof (Hd t0 r j Hin Hj). unfold next_rowid. lia.
      * rewrite (created_row_id t0 x d Hroom) in Hj. injection Hj as <-.
        pose proof (max_rowid_nonneg (rows (table_of t0 d))).
        unfold next_rowid. lia.
    + unfold insert_row in Hin. rewrite table_of_set_table_ne in Hin
        by exact Hne. pose proof (Hd t r j Hin Hj). lia.
  - destruct (tname_eq_dec t t0) as [->|Hne].
    + unfold update_rows in Hin. rewrite table_of_set_table in Hin.
      simpl in Hin. apply in_map_iff in Hin. destruct Hin as [r1 [<- Hin]].
      assert (Hj1 : row_id r1 = Some j).
      { destruct (has_id i r1); [rewrite update_row_id in Hj|]; exact Hj. }
      pose proof (Hd t0 r1 j Hin Hj1). lia.
    + unfold update_rows in Hin. rewrite table_of_set_table_ne in Hin
        by exact Hne. pose proof (Hd t r j Hin Hj). lia.
  - destruct (tname_eq_dec t t0) as [->|Hne].
    + unfold delete_rows in Hin. rewrite table_of_set_table in Hin.
      simpl in Hin. apply filter_In in Hin.
      pose proof (Hd t0 r j (proj1 Hin) Hj). lia.
    + unfold delete_rows in Hin. rewrite table_of_set_table_ne in Hin
        by exact Hne. pose proof (Hd t r j Hin Hj). lia.
Qed.

Lemma reachable_ids_bounded (d : DB) : reachable d -> ids_bounded d.
Proof.
  intros [rqs ->]. induction rqs as [|rq rqs IH] using rev_ind.
  - intros t r j Hin. destruct t; destruct Hin.
  - rewrite serve_snoc. eapply ids_bounded_step; [apply app_store_step|exact IH].
Qed.


Lemma record_id (t : tname) (r : row) : assoc "id" (record t r) = Some r@0.
Proof. destruct t; reflexivity. Qed.




(** ** Invariants of every reachable store *)

(** X8.  In every state the service reaches from a fresh database, each
    table's rows have the arity of its schema and an integer id, no two rows
    of a table share an id, and every id is positive and at most the table's
    AUTOINCREMENT counter. *)
Theorem store_well_formed (d : DB) (t : tname) :
  reachable d ->
  Forall (wf_row t) (rows (table_of t d)) /\
  NoDup (ids t d) /\
  (forall r i, In r (rows (table_of t d)) -> row_id r = Some i ->
               0 < i <= seq (table_of t d)).
Proof.
  intros Hd. destruct (reachable_wf d Hd t) as [Hrows Hnd].
  split; [exact Hrows|]. split; [exact Hnd|].
  intros r i. apply (reachable_ids_bounded d Hd t).
Qed.

Lemma store_well_formed_witness :
  reachable one_comment /\
  NoDup (ids comments one_comment) /\
  Forall (wf_row comments) (rows (table_of comments one_comment)).
Proof.
  assert (H : reachable one_comment).
  { exists [POST_comments (CommentCreate.mk 999 "hi")]. reflexivity. }
  split; [exact H|].
  destruct (store_well_formed one_comment comments H) as [H1 [H2 _]].
  split; [exact H2|exact H1].
Defined.


(** ** No NULL reaches the store *)

Lemma created_row_no_nulls (t : tname) (x : CreateModel t) (d : DB) :
  Forall (fun v => v <> VNone) (created_row t x d).
Proof. destruct t; repeat constructor; discriminate. Qed.

Ltac split_Forall :=
  repeat match goal with
         | H : Forall _ (_ :: _) |- _ =>
             apply Forall_cons_iff in H; destruct H
         end.

Lemma merge_value_no_null (new old : value) :
  old <> VNone -> merge_value new old <> VNone.
Proof. intros H. destruct new; simpl; [exact H|discriminate|discriminate]. Qed.

Lemma update_row_no_nulls (t : tname) (u : UpdateModel t) (r0 r1 : row) :
  length r0 = length (schema t) ->
  length r1 = length (schema t) ->
  Forall (fun v => v <> VNone) r0 ->
  Forall (fun v => v <> VNone) r1 ->
  Forall (fun v => v <> VNone) (update_row t (set_list t u r0) r1).
Proof.
  intros H0 H1 F0 F1.
  destruct t; simpl in H0, H1; full_row r0; full_row r1; split_Forall;
    simpl; unfold item; simpl;
    repeat (apply Forall_cons; [try assumption; apply merge_value_no_null;
                                assumption|]);
    apply Forall_nil.
Qed.

Lemma no_nulls_step (d d' : DB) :
  store_step d d' -> wf_db d -> no_nulls d -> no_nulls d'.
Proof.
  intros Hstep Hwf Hd t r Hin.
  destruct Hstep as [|t0 x Hfit Hroom|t0 i u r0 H0 Hbind|t0 i].
  - apply (Hd t r Hin).
  - destruct (tname_eq_dec t t0) as [->|Hne].
    + unfold insert_row in Hin. rewrite table_of_set_table in Hin.
      simpl in Hin. apply in_app_or in Hin. destruct Hin as [Hin|[<-|[]]].
      * apply (Hd t0 r Hin).
      * apply created_row_no_nulls.
    + unfold insert_row in Hin.
      rewrite table_of_set_table_ne in Hin by exact Hne. apply (Hd t r Hin).
  - destruct (tname_eq_dec t t0) as [->|Hne].
    + unfold update_rows in Hin. rewrite table_of_set_table in Hin.
      simpl in Hin. apply in_map_iff in Hin. destruct Hin as [r1 [<- Hin]].
      destruct (has_id i r1); [|apply (Hd t0 r1 Hin)].
      destruct (lookup_Some_in t0 i d r0 H0) as [Hin0 _].
      destruct (Hwf t0) as [Hrows _]. rewrite Forall_forall in Hrows.
      apply update_row_no_nulls.
      * apply (Hrows r0 Hin0).
      * apply (Hrows r1 Hin).
      * apply (Hd t0 r0 Hin0).
      * apply (Hd t0 r1 Hin).
    + unfold update_rows in Hin.
      rewrite table_of_set_table_ne in Hin by exact Hne. apply (Hd t r Hin).
  - destruct (tname_eq_dec t t0) as [->|Hne].
    + unfold delete_rows in Hin. rewrite table_of_set_table in Hin.
      simpl in Hin. apply filter_In in Hin. apply (Hd t0 r (proj1 Hin)).
    + unfold delete_rows in Hin.
      rewrite table_of_set_table_ne in Hin by exact Hne. apply (Hd t r Hin).
Qed.

Lemma reachable_no_nulls (d : DB) : reachable d -> no_nulls d.
Proof.
  intros [rqs ->]. induction rqs as [|rq rqs IH] using rev_ind.
  - intros t r Hin. destruct t; destruct Hin.
  - rewrite serve_snoc. eapply no_nulls_step.
    + apply app_store_step.
    + apply reachable_wf. exists rqs. reflexivity.
    + exact IH.
Qed.

Lemma zip_row_values (cols : list string) (k0 : nat) (r : row) (k : string)
    (v : value) :
  In (k, v) (zip_row cols k0 r) ->
  exists n, (k0 <= n < k0 + length cols)%nat /\ v = r@n.
Proof.
  revert k0. induction cols as [|c cols IH]; intros k0 Hin; simpl in Hin;
    [contradiction|].
  destruct Hin as [E|Hin].
  - injection E as _ <-. exists k0. simpl. split; [lia|reflexivity].
  - destruct (IH (S k0) Hin) as [n [Hn ->]]. exists n. simpl.
    split; [lia|reflexivity].
Qed.

(** X9.  In every state the service reaches from a fresh database no column
    of any row is NULL, and no field of any record that a listing or a GET
    by id answers with is null: the [None] of an unset Update field never
    reaches the store, and a NOT NULL column never receives a NULL. *)
Theorem no_null_stored (d : DB) (t : tname) :
  reachable d ->
  (forall r, In r (rows (table_of t d)) -> Forall (fun v => v <> VNone) r) /\
  (forall rec k v, In rec (listing t d) -> In (k, v) rec -> v <> VNone) /\
  (forall i k v, status (fst (app (GET t i) d)) = 200 ->
                 In (k, v) (sent (app (GET t i) d)) -> v <> VNone).
Proof.
  intros Hd. pose proof (reachable_no_nulls d Hd) as Hn.
  pose proof (reachable_wf d Hd t) as [Hrows _].
  rewrite Forall_forall in Hrows.
  assert (Hrec : forall r k v, In r (rows (table_of t d)) ->
                               In (k, v) (record t r) -> v <> VNone).
  { intros r k v Hin Hkv. unfold record in Hkv.
    destruct (zip_row_values _ _ _ _ _ Hkv) as [n [Hlt ->]].
    specialize (Hn t r Hin). rewrite Forall_forall in Hn. apply Hn.
    unfold item. apply nth_In. destruct (Hrows r Hin) as [Hlen _].
    unfold keys in Hlt. rewrite length_map in Hlt. lia. }
  split; [intros r; apply Hn|]. split.
  - intros rec k v Hin Hkv. unfold listing in Hin. rewrite app_GET_all in Hin.
    simpl in Hin. apply in_map_iff in Hin. destruct Hin as [r [<- Hin]].
    apply (Hrec r k v Hin Hkv).
  - intros i k v. unfold sent. rewrite app_GET. simpl fst.
    destruct (in_range i); [|discriminate].
    destruct (lookup t i d) as [r|] eqn:E.
    + intros _ Hkv. simpl in Hkv.
      apply (Hrec r k v (proj1 (lookup_Some_in t i d r E)) Hkv).
    + destruct t; discriminate.
Qed.

Lemma no_null_stored_witness :
  reachable one_team /\
  (forall r, In r (rows (table_of teams one_team)) ->
             Forall (fun v => v <> VNone) r).
Proof.
  assert (H : reachable one_team).
  { exists [POST_teams (TeamCreate.mk "Lakers" "Los Angeles" 17)].
    reflexivity. }
  split; [exact H|].
  exact (proj1 (no_null_stored one_team teams H)).
Defined.

(** ** Update, then read *)

Lemma app_PUT_after (t : tname) (i : Z) (u : UpdateModel t) (d : DB) :
  snd (app (PUT t i u) d) = after (update_one t i u) d.
Proof. destruct t; reflexivity. Qed.





(** On a typed store, a PUT on an existing id whose SET list binds answers
    200 with that SET list. *)
Lemma put_response_set_list (t : tname) (i : Z) (u : UpdateModel t) (d : DB)
    (r : row) :
  typed d ->
  lookup t i d = Some r ->
  fits (set_list t u r) = true ->
  app (PUT t i u) d
    = (mkResponse 200 (JObject (set_list t u r)),
       update_rows t (set_list t u r) i d).
Proof.
  intros Hty H Hfit. rewrite (app_PUT_found t i u d r H), Hfit.
  unfold validated.
  rewrite (returned_validates t i u r
             (Hty t r (proj1 (lookup_Some_in t i d r H)))).
  reflexivity.
Qed.




(** ** What a PUT answers *)



(** ** Update with nothing, update twice *)

(** X12.  In a state the service has reached, a PUT on an existing id with
    every field unset answers 200 and leaves the store exactly as it was:
    the UPDATE it executes rewrites the row with its own values. *)
Theorem put_unset_changes_nothing (t : tname) (i : Z) (u : UpdateModel t)
    (d : DB) (r : row) :
  reachable d ->
  lookup t i d = Some r ->
  unset t u ->
  snd (app (PUT t i u) d) = d /\
  status (fst (app (PUT t i u) d)) = 200 /\
  request_statements (PUT t i u) d
    = [SELECT_WHERE_ID t i; UPDATE t (set_list t u r) i] /\
  update_row t (set_list t u r) r = r.
Proof.
  intros Hd Hr Hu. pose proof (reachable_wf d Hd) as Hwf.
  pose proof (reachable_typed d Hd) as Hty.
  destruct (update_unset_same t i u d r Hwf Hty Hr Hu) as [Hfit [_ Hsame]].
  split; [rewrite app_PUT_after; exact Hsame|].
  split; [rewrite (put_response_set_list t i u d r Hty Hr Hfit); reflexivity|].
  split; [rewrite request_statements_PUT, statements_update_one, Hr;
          reflexivity|].
  destruct (lookup_Some_in t i d r Hr) as [Hin _].
  assert (Hlen : length r = length (schema t))
    by (apply typed_length, (Hty t r Hin)).
  rewrite (update_row_merged t u r Hlen). apply merged_unset; assumption.
Qed.

Lemma put_unset_changes_nothing_witness :
  reachable one_team /\
  lookup teams 1 one_team
    = Some [VInt 1; VStr "Lakers"; VStr "Los Angeles"; VInt 17] /\
  unset teams (TeamUpdate.mk None None None) /\
  snd (app (PUT teams 1 (TeamUpdate.mk None None None)) one_team) = one_team.
Proof.
  assert (H : reachable one_team).
  { exists [POST_teams (TeamCreate.mk "Lakers" "Los Angeles" 17)].
    reflexivity. }
  assert (Hr : lookup teams 1 one_team
               = Some [VInt 1; VStr "Lakers"; VStr "Los Angeles"; VInt 17])
    by reflexivity.
  assert (Hu : unset teams (TeamUpdate.mk None None None)).
  { intros k v Hin. simpl in Hin.
    destruct Hin as [E|[E|[E|[]]]]; injection E as _ <-; reflexivity. }
  split; [exact H|]. split; [exact Hr|]. split; [exact Hu|].
  exact (proj1 (put_unset_changes_nothing teams 1 (TeamUpdate.mk None None None)
                  one_team _ H Hr Hu)).
Defined.

Lemma merge_value_idem (new old : value) :
  merge_value new (merge_value new old) = merge_value new old.
Proof. destruct new; reflexivity. Qed.

Lemma merged_idem (t : tname) (u : UpdateModel t) (r : row) :
  length r = length (schema t) ->
  merged t u (merged t u r) = merged t u r.
Proof.
  intros H. destruct t; simpl in H; full_row r;
    unfold merged; simpl; unfold item; simpl;
    rewrite ?merge_value_idem; reflexivity.
Qed.

(** X13.  PUT is idempotent on every state the service has reached: the
    same PUT sent a second time answers what the first one answered and
    leaves the store as the first one left it. *)
Theorem put_twice (t : tname) (i : Z) (u : UpdateModel t) (d : DB) :
  reachable d ->
  app (PUT t i u) (snd (app (PUT t i u) d))
    = (fst (app (PUT t i u) d), snd (app (PUT t i u) d)).
Proof.
  intros Hd. destruct (lookup t i d) as [r|] eqn:Hr.
  2:{ rewrite (app_PUT_missing t i u d Hr). simpl.
      apply app_PUT_missing. exact Hr. }
  destruct (fits (set_list t u r)) eqn:Hfit.
  2:{ rewrite (app_PUT_found t i u d r Hr), Hfit. simpl.
      rewrite (app_PUT_found t i u d r Hr), Hfit. reflexivity. }
  pose proof (reachable_wf d Hd) as Hwf.
  pose proof (reachable_typed d Hd) as Hty.
  pose proof (reachable_typed _ (reachable_step (PUT t i u) d Hd)) as Hty'.
  destruct (update_stores_merged t i u d r Hwf Hr Hfit) as [_ [Hl _]].
  rewrite <- app_PUT_after in Hl.
  destruct (lookup_Some_in t i d r Hr) as [Hin _].
  assert (Hlen : length r = length (schema t))
    by (apply typed_length, (Hty t r Hin)).
  assert (Hm : length (merged t u r) = length (schema t)).
  { rewrite <- (update_row_merged t u r Hlen). unfold update_row.
    rewrite set_columns_length. exact Hlen. }
  assert (Hset : set_list t u (merged t u r) = set_list t u r).
  { unfold set_list. rewrite (merged_idem t u r Hlen). reflexivity. }
  assert (Hfit' : fits (set_list t u (merged t u r)) = true)
    by (rewrite Hset; exact Hfit).
  rewrite (put_response_set_list t i u _ _ Hty' Hl Hfit'), Hset.
  rewrite (put_response_set_list t i u d r Hty Hr Hfit). simpl fst; simpl snd.
  f_equal.
  apply (update_rows_same t _ i _ (merged t u r)).
  - apply (wf_db_step d); [|exact Hwf]. apply step_update; assumption.
  - rewrite (put_response_set_list t i u d r Hty Hr Hfit) in Hl. exact Hl.
  - rewrite <- Hset. rewrite (update_row_merged t u _ Hm).
    apply merged_idem. exact Hlen.
Qed.

Lemma put_twice_witness :
  reachable one_poll /\
  app (PUT polls 1 (PollUpdate.mk (Some "Best sport ever?")))
      (snd (app (PUT polls 1 (PollUpdate.mk (Some "Best sport ever?")))
                one_poll))
    = (fst (app (PUT polls 1 (PollUpdate.mk (Some "Best sport ever?")))
                one_poll),
       snd (app (PUT polls 1 (PollUpdate.mk (Some "Best sport ever?")))
                one_poll)).
Proof.
  assert (H : reachable one_poll).
  { exists [POST_polls (PollCreate.mk "Best sport?")]. reflexivity. }
  split; [exact H|].
  exact (put_twice polls 1 (PollUpdate.mk (Some "Best sport ever?"))
           one_poll H).
Defined.

(** ** Delete removes one record *)

Lemma keep_other_ids (i : Z) (rs : list row) :
  ~ In (Some i) (map row_id rs) ->
  filter (fun r => negb (has_id i r)) rs = rs.
Proof.
  intros H. apply delete_none. apply matching_nil_iff.
  intros r Hin Hid. apply H. rewrite <- Hid. apply in_map. exact Hin.
Qed.

(** X14.  In a state the service has reached, a DELETE of an existing id
    answers 200 with the confirmation message and removes exactly the
    record of that id from the listing of its table: the records before it
    and after it stay, in order.  The GET of every other id answers as
    before. *)
Theorem delete_removes_one (t : tname) (i : Z) (d : DB) (r : row) :
  reachable d ->
  lookup t i d = Some r ->
  let d' := snd (app (DELETE_one t i) d) in
  fst (app (DELETE_one t i) d)
    = mkResponse 200 (JObject [("detail", VStr (deleted_message t))]) /\
  (exists l1 l2,
     listing t d = l1 ++ record t r :: l2 /\ listing t d' = l1 ++ l2) /\
  S (length (listing t d')) = length (listing t d) /\
  (forall j, j <> i -> fst (app (GET t j) d') = fst (app (GET t j) d)).
Proof.
  intros Hd Hr d'. subst d'.
  pose proof (lookup_in_range t i d r Hr) as Hi.
  rewrite app_DELETE, Hi, Hr. simpl fst; simpl snd.
  destruct (lookup_Some_in t i d r Hr) as [Hin Hid].
  destruct (reachable_wf d Hd t) as [_ Hnd].
  destruct (in_split r _ Hin) as [rs1 [rs2 Hrows]].
  assert (Hdel : rows (table_of t (delete_rows t i d)) = rs1 ++ rs2).
  { unfold delete_rows. rewrite table_of_set_table. simpl.
    rewrite Hrows in Hnd |- *. rewrite map_app in Hnd. simpl in Hnd.
    rewrite Hid in Hnd. apply NoDup_remove_2 in Hnd.
    rewrite filter_app. simpl.
    apply has_id_row_id in Hid. rewrite Hid. simpl.
    rewrite !keep_other_ids; [reflexivity| |];
      intros H; apply Hnd, in_or_app; [right|left]; exact H. }
  assert (Hl : listing t d = map (record t) rs1 ++ record t r
                                 :: map (record t) rs2).
  { unfold listing. rewrite app_GET_all. simpl. rewrite Hrows, map_app.
    reflexivity. }
  assert (Hl' : listing t (delete_rows t i d)
                = map (record t) rs1 ++ map (record t) rs2).
  { unfold listing. rewrite app_GET_all. simpl. rewrite Hdel, map_app.
    reflexivity. }
  split; [reflexivity|]. split; [|split].
  - exists (map (record t) rs1), (map (record t) rs2).
    split; [exact Hl|exact Hl'].
  - rewrite Hl, Hl', !length_app. simpl. lia.
  - intros j Hj. rewrite !app_GET. unfold lookup at 1, matching, delete_rows.
    rewrite table_of_set_table. simpl rows.
    rewrite matching_other_deleted by exact Hj. reflexivity.
Qed.

Lemma delete_removes_one_witness :
  reachable one_poll /\
  lookup polls 1 one_poll = Some [VInt 1; VStr "Best sport?"; VInt 0] /\
  fst (app (DELETE_one polls 1) one_poll)
    = mkResponse 200 (JObject [("detail", VStr "Poll deleted successfully")]).
Proof.
  assert (H : reachable one_poll).
  { exists [POST_polls (PollCreate.mk "Best sport?")]. reflexivity. }
  assert (Hr : lookup polls 1 one_poll
               = Some [VInt 1; VStr "Best sport?"; VInt 0]) by reflexivity.
  split; [exact H|]. split; [exact Hr|].
  exact (proj1 (delete_removes_one polls 1 one_poll _ H Hr)).
Defined.


(** ** GET by id and the listing agree *)

Lemma lookup_in_unique (t : tname) (i : Z) (d : DB) (r : row) :
  wf_db d ->
  In r (rows (table_of t d)) ->
  row_id r = Some i ->
  lookup t i d = Some r.
Proof.
  intros Hwf Hin Hid. destruct (lookup t i d) as [r'|] eqn:E.
  - destruct (lookup_Some_in t i d r' E) as [Hin' Hid'].
    destruct (Hwf t) as [_ Hnd]. f_equal.
    apply (unique_ids_same_row (rows (table_of t d))); try assumption.
    congruence.
  - exfalso. apply (proj1 (lookup_None_iff t i d) E r Hin Hid).
Qed.

(** X15.  In a state the service has reached, GET by id and the listing
    agree: a record of the listing whose [id] is [i] is what GET of [i]
    answers with, and whatever a GET of [i] answers with status 200 is a
    record of the listing and has [id] [i]. *)
Theorem get_agrees_with_listing (t : tname) (i : Z) (d : DB) :
  reachable d ->
  (forall rec, In rec (listing t d) -> assoc "id" rec = Some (VInt i) ->
     fst (app (GET t i) d) = mkResponse 200 (JObject rec)) /\
  (status (fst (app (GET t i) d)) = 200 ->
     In (sent (app (GET t i) d)) (listing t d) /\
     assoc "id" (sent (app (GET t i) d)) = Some (VInt i)).
Proof.
  intros Hd. pose proof (reachable_wf d Hd) as Hwf. split.
  - intros rec Hin Hrec. unfold listing in Hin. rewrite app_GET_all in Hin.
    simpl in Hin. apply in_map_iff in Hin. destruct Hin as [r [<- Hin]].
    rewrite record_id in Hrec. injection Hrec as Hrec.
    assert (Hid : row_id r = Some i).
    { destruct (Hwf t) as [Hrows _]. rewrite Forall_forall in Hrows.
      destruct (Hrows r Hin) as [_ [j Hj]].
      destruct (row_id_in_range r j Hj) as [_ E]. congruence. }
    rewrite app_GET, (proj1 (row_id_in_range r i Hid)),
      (lookup_in_unique t i d r Hwf Hin Hid). reflexivity.
  - unfold sent, listing. rewrite app_GET, app_GET_all. simpl fst.
    destruct (in_range i); [|discriminate].
    destruct (lookup t i d) as [r|] eqn:E; [|destruct t; discriminate].
    intros _. simpl body. destruct (lookup_Some_in t i d r E) as [Hin Hid].
    split; [apply in_map; exact Hin|].
    rewrite record_id. rewrite (proj2 (row_id_in_range r i Hid)). reflexivity.
Qed.

Lemma get_agrees_with_listing_witness :
  reachable one_comment /\
  fst (app (GET comments 1) one_comment)
    = mkResponse 200
        (JObject [("id", VInt 1); ("poll_id", VInt 999);
                  ("content", VStr "hi")]).
Proof.
  assert (H : reachable one_comment).
  { exists [POST_comments (CommentCreate.mk 999 "hi")]. reflexivity. }
  split; [exact H|].
  apply (proj1 (get_agrees_with_listing comments 1 one_comment H)).
  - left. reflexivity.
  - reflexivity.
Defined.


(** ** What an Update handler returns *)


